(** * Chunked RSA file encryption: the processing loop and the key manager

    Shallow embedding of [backend/file_manager.py] (class [FileManager]) and
    [backend/rsa_key_manager.py] (class [RsaKeyManager]).

    The file system is a finite map from paths to byte strings.  Opening a
    path for reading raises [FileNotFoundError] when the path is absent,
    opening for writing creates or truncates the file; reads, writes and the
    release of the handles at the end of a [with] block do not raise.  The
    [cryptography] package is an external library: its RSA/OAEP primitive,
    its PEM codec and its key generator are operations of the classes
    [RsaOaep] and [PemCodec] below. *)

From Stdlib Require Import Strings.Byte.
From stdpp Require Import gmap strings list sorting.

Set Default Proof Using "Type".
Open Scope string_scope.
Open Scope list_scope.

Abbreviation bytes := (list byte).

(** ** Python exceptions and outcomes *)

(** The exception classes that occur.  The last three are the kinds the
    cipher raises. *)
Inductive PyExn : Type :=
| FileNotFoundError (msg : string)
| ValueError (msg : string)
| TypeError (msg : string)
| Exception (msg : string)
| ConfigurationError (msg : string)
| SizeError (msg : string)
| DecryptError (msg : string).

(** [str(e)] *)
Definition str (e : PyExn) : string :=
  match e with
  | FileNotFoundError m | ValueError m | TypeError m | Exception m
  | ConfigurationError m | SizeError m | DecryptError m => m
  end.

(** The message of the [FileNotFoundError] that [open] raises. *)
Definition no_such_file (path : string) : string :=
  "[Errno 2] No such file or directory: '" ++ path ++ "'".

(** A call returns normally, raises, or (in the model only) exhausts the
    fuel of a loop. *)
Inductive Outcome (A : Type) : Type :=
| Normal (a : A)
| Raised (e : PyExn)
| OutOfFuel.
Arguments Normal {A} a.
Arguments Raised {A} e.
Arguments OutOfFuel {A}.

(** ** RSA keys and the library primitive *)

(** Key objects of the library: the size in bits and the key material,
    which the program never inspects. *)
Record RSAPrivateKey : Type := mkPrivateKey {
  key_size : nat;
  key_material : nat
}.

Record RSAPublicKey : Type := mkPublicKey {
  pub_key_size : nat;
  pub_material : nat
}.

(** [private_key.public_key()] *)
Definition public_key_of (k : RSAPrivateKey) : RSAPublicKey :=
  mkPublicKey (key_size k) (key_material k).

Definition modulus_byte_len (bits : nat) : nat := (bits + 7) / 8.

(** OAEP with SHA-256 leaves the modulus length minus [2 * 32 + 2] bytes. *)
Definition max_plaintext_len (bits : nat) : nat := modulus_byte_len bits - 66.

(** The library's RSA/OAEP primitive.  Encryption draws fresh randomness at
    every call: [r] is the index of the call on the random tape. *)
Class RsaOaep : Type := {
  oaep_encrypt : RSAPublicKey -> nat -> bytes -> bytes;
  oaep_decrypt : RSAPrivateKey -> bytes -> option bytes
}.

(** What the library guarantees for the key pair of [sk]. *)
Definition oaep_correct `{RsaOaep} (sk : RSAPrivateKey) : Prop :=
  forall (r : nat) (m : bytes),
    length m <= max_plaintext_len (key_size sk) ->
    length (oaep_encrypt (public_key_of sk) r m) = modulus_byte_len (key_size sk)
    /\ oaep_decrypt sk (oaep_encrypt (public_key_of sk) r m) = Some m.

(** ** Constants *)

Module Size.
(** Modelled from the spec: [backend/constants.py] is not among the
    sources; the end-to-end property gives 446-byte encryption chunks and
    512-byte decryption chunks for the 4096-bit key. *)
Definition ENCRYPTION_CHUNK : nat := 446.
Definition DECRYPTION_CHUNK : nat := 512.
End Size.

(** ** The chunk cipher *)

Module ChunkEncrypter.
(** Modelled from the spec: [backend/chunk_encrypter.py] is not among the
    sources.  The cipher is built with exactly one key; [encrypt_chunk]
    refuses a plaintext longer than the capacity with [SizeError];
    [decrypt_chunk] refuses a ciphertext whose length is not the modulus
    length with [SizeError] and one that fails validation with
    [DecryptError]. *)
Record t : Type := mk {
  public_key : option RSAPublicKey;
  private_key : option RSAPrivateKey
}.

Definition new (public_key : option RSAPublicKey)
    (private_key : option RSAPrivateKey) : PyExn + t :=
  match public_key, private_key with
  | Some _, None | None, Some _ => inr (mk public_key private_key)
  | _, _ => inl (ConfigurationError "exactly one key is required")
  end.

Definition encrypt_chunk `{RsaOaep} (self : t) (r : nat) (plaintext : bytes)
    : PyExn + bytes :=
  match public_key self with
  | None => inl (ConfigurationError "public key required")
  | Some pk =>
      if decide (length plaintext <= max_plaintext_len (pub_key_size pk))
      then inr (oaep_encrypt pk r plaintext)
      else inl (SizeError "plaintext too long")
  end.

Definition decrypt_chunk `{RsaOaep} (self : t) (r : nat) (ciphertext : bytes)
    : PyExn + bytes :=
  match private_key self with
  | None => inl (ConfigurationError "private key required")
  | Some sk =>
      if decide (length ciphertext = modulus_byte_len (key_size sk))
      then match oaep_decrypt sk ciphertext with
           | Some plaintext => inr plaintext
           | None => inl (DecryptError "decryption failed")
           end
      else inl (SizeError "wrong ciphertext length")
  end.
End ChunkEncrypter.

(** ** The file manager *)

Module FileManager.

(** The signals of [signal_manager] that the file manager emits. *)
Inductive Signal : Type :=
| update_processed_bytes (n : nat)
| operation_completed
| critical_error (path msg : string).

(** What the run does to its environment besides emitting signals. *)
Inductive IOEvent : Type :=
| Opened (path : string) (mode : string)
| Read (path : string) (data : bytes)
| Written (path : string) (data : bytes)
| Console (line : string).

(** The attributes of a [FileManager] object. *)
Record t : Type := mk {
  chunk_encrypter : option ChunkEncrypter.t;
  _stop_flag : bool
}.

(** [__init__] *)
Definition __init__ : t := mk None false.

(** The object together with the world it acts on: the files, the signals
    emitted so far and the input/output performed so far (oldest first). *)
Record State : Type := mkState {
  self : t;
  files : gmap string bytes;
  emitted : list Signal;
  io_log : list IOEvent
}.

Definition M (A : Type) : Type := State -> Outcome A * State.

Definition ret {A} (a : A) : M A := fun s => (Normal a, s).

Definition bind {A B} (m : M A) (k : A -> M B) : M B :=
  fun s =>
    match m s with
    | (Normal a, s') => k a s'
    | (Raised e, s') => (Raised e, s')
    | (OutOfFuel, s') => (OutOfFuel, s')
    end.

Definition raise {A} (e : PyExn) : M A := fun s => (Raised e, s).

Definition out_of_fuel {A} : M A := fun s => (OutOfFuel, s).

(** [try: body except Exception as e: handler(e)] *)
Definition try_except {A} (body : M A) (handler : PyExn -> M A) : M A :=
  fun s =>
    match body s with
    | (Raised e, s') => handler e s'
    | r => r
    end.

(** The result of a callable that returns or raises. *)
Definition call {A} (r : PyExn + A) : M A :=
  match r with
  | inl e => raise e
  | inr a => ret a
  end.

Declare Scope fm_scope.
Delimit Scope fm_scope with fm.
Notation "x <- m ;; k" := (bind m (fun x => k))
  (at level 100, m at next level, right associativity) : fm_scope.
Notation "m ;;; k" := (bind m (fun _ => k))
  (at level 100, right associativity) : fm_scope.
Open Scope fm_scope.

Definition log_io (ev : IOEvent) : M unit :=
  fun s => (Normal tt, mkState (self s) (files s) (emitted s) (io_log s ++ [ev])).

(** [signal.emit(...)] *)
Definition emit (sig : Signal) : M unit :=
  fun s => (Normal tt, mkState (self s) (files s) (emitted s ++ [sig]) (io_log s)).

Definition set_self (o : t) : M unit :=
  fun s => (Normal tt, mkState o (files s) (emitted s) (io_log s)).

Definition set_file (path : string) (data : bytes) : M unit :=
  fun s => (Normal tt, mkState (self s) (<[path := data]> (files s)) (emitted s) (io_log s)).

Definition get_files : M (gmap string bytes) := fun s => (Normal (files s), s).

Definition get_self : M t := fun s => (Normal (self s), s).

(** [stop_process_request]: the slot connected to [stop_process]. *)
Definition stop_process_request : M unit :=
  o <- get_self ;;
  set_self (mk (chunk_encrypter o) true).

(** An open input file: its path and the offset of the next read. *)
Record InFile : Type := mkInFile { in_path : string; in_pos : nat }.

(** [open(path, "rb")] *)
Definition open_rb (path : string) : M InFile :=
  fs <- get_files ;;
  match fs !! path with
  | None => raise (FileNotFoundError (no_such_file path))
  | Some _ => log_io (Opened path "rb") ;;; ret (mkInFile path 0)
  end.

(** [open(path, "wb")]: the file is created or truncated.  The handle
    writes at the end of the file. *)
Definition open_wb (path : string) : M string :=
  set_file path [] ;;;
  log_io (Opened path "wb") ;;;
  ret path.

(** [infile.read(size)]: up to [size] bytes from the offset on; the empty
    string at the end of the file. *)
Definition read (infile : InFile) (size : nat) : M (bytes * InFile) :=
  fs <- get_files ;;
  let chunk := take size (drop (in_pos infile) (default [] (fs !! in_path infile))) in
  log_io (Read (in_path infile) chunk) ;;;
  ret (chunk, mkInFile (in_path infile) (in_pos infile + length chunk)).

(** [outfile.write(data)] *)
Definition write (outfile : string) (data : bytes) : M unit :=
  fs <- get_files ;;
  set_file outfile (default [] (fs !! outfile) ++ data) ;;;
  log_io (Written outfile data).

(** The way the [while True] loop is left. *)
Inductive LoopExit : Type := Returned | Broke.

Section Loop.
(** [stop_request i] tells whether the [stop_process] signal has fired
    (the slot runs in the thread of the sender) since the flag was last
    looked at, when iteration [i] looks at it. *)
Variable stop_request : nat -> bool.
(** The callable: the result of its [i]-th call on a chunk. *)
Variable chunk_handler : nat -> bytes -> PyExn + bytes.
Variable chunk_size : nat.
Variable outfile : string.

(** The flag as iteration [i] sees it. *)
Definition poll_stop_flag (i : nat) : M bool :=
  (if stop_request i then stop_process_request else ret tt) ;;;
  o <- get_self ;;
  ret (_stop_flag o).

Fixpoint process_loop (fuel : nat) (i : nat) (infile : InFile) : M LoopExit :=
  match fuel with
  | 0 => out_of_fuel
  | S fuel' =>
      stop <- poll_stop_flag i ;;
      if (stop : bool) then
        log_io (Console "Process stopped by user.") ;;;
        ret Returned
      else
        r <- read infile chunk_size ;;
        let '(chunk, infile') := r in
        match chunk with
        | [] => ret Broke
        | _ :: _ =>
            processed_chunk <- call (chunk_handler i chunk) ;;
            write outfile processed_chunk ;;;
            emit (update_processed_bytes (length chunk)) ;;;
            process_loop fuel' (S i) infile'
        end
  end.
End Loop.

(** [_process_file].  Every iteration that goes on consumes at least one
    byte of the input, so the length of the input plus one bounds the
    number of iterations. *)
Definition _process_file (stop_request : nat -> bool)
    (input_file_path output_file_path : string)
    (chunk_handler : nat -> bytes -> PyExn + bytes) (chunk_size : nat) : M unit :=
  try_except
    (infile <- open_rb input_file_path ;;
     outfile <- open_wb output_file_path ;;
     fs <- get_files ;;
     let fuel := S (length (default [] (fs !! input_file_path))) in
     exit <- process_loop stop_request chunk_handler chunk_size outfile fuel 0 infile ;;
     match exit with
     | Returned => ret tt
     | Broke => emit operation_completed
     end)
    (fun e =>
       log_io (Console ("Error processing file " ++ input_file_path ++ ": " ++ str e)) ;;;
       emit (critical_error input_file_path (str e))).

(** [encrypt_file] *)
Definition encrypt_file `{RsaOaep} (stop_request : nat -> bool)
    (input_file_path output_file_path : string) (public_key : RSAPublicKey) : M unit :=
  o <- get_self ;;
  ce <- call (ChunkEncrypter.new (Some public_key) None) ;;
  set_self (mk (Some ce) (_stop_flag o)) ;;;
  _process_file stop_request input_file_path output_file_path
    (ChunkEncrypter.encrypt_chunk ce) Size.ENCRYPTION_CHUNK.

(** [decrypt_file] *)
Definition decrypt_file `{RsaOaep} (stop_request : nat -> bool)
    (input_file_path output_file_path : string) (private_key : RSAPrivateKey) : M unit :=
  o <- get_self ;;
  ce <- call (ChunkEncrypter.new None (Some private_key)) ;;
  set_self (mk (Some ce) (_stop_flag o)) ;;;
  _process_file stop_request input_file_path output_file_path
    (ChunkEncrypter.decrypt_chunk ce) Size.DECRYPTION_CHUNK.

End FileManager.

(** ** The key manager *)

(** [serialization.NoEncryption()] and
    [serialization.BestAvailableEncryption(password)] *)
Inductive KeySerializationEncryption : Type :=
| NoEncryption
| BestAvailableEncryption (password : bytes).

(** The passphrase that protects a key serialized under [enc]. *)
Definition protection (enc : KeySerializationEncryption) : option bytes :=
  match enc with
  | NoEncryption => None
  | BestAvailableEncryption password => Some password
  end.

(** The library's key generator and PEM codec.  [private_bytes] salts an
    encrypted container, [salt] is the randomness it draws; [pem_private]
    is the decoding of a PEM container: the key and the passphrase that
    protects it, or nothing when the bytes are not a private key in PEM. *)
Class PemCodec : Type := {
  rsa_generate_private_key : nat -> nat -> nat -> PyExn + RSAPrivateKey;
  private_bytes : RSAPrivateKey -> KeySerializationEncryption -> nat -> bytes;
  public_bytes : RSAPublicKey -> bytes;
  pem_private : bytes -> option (RSAPrivateKey * option bytes);
  pem_public : bytes -> option RSAPublicKey
}.

(** What the library guarantees for the containers of the key [k]. *)
Definition pem_faithful `{PemCodec} (k : RSAPrivateKey) : Prop :=
  forall (enc : KeySerializationEncryption) (salt : nat),
    pem_private (private_bytes k enc salt) = Some (k, protection enc).

(** What the library guarantees for the container of the public key [k]. *)
Definition pem_public_faithful `{PemCodec} (k : RSAPublicKey) : Prop :=
  pem_public (public_bytes k) = Some k.

#[global] Instance byte_eq_dec : EqDecision byte := Byte.byte_eq_dec.

(** [serialization.load_pem_private_key(data, password)] *)
Definition load_pem_private_key `{PemCodec} (data : bytes) (password : option bytes)
    : PyExn + RSAPrivateKey :=
  match pem_private data with
  | None => inl (ValueError "Could not deserialize key data.")
  | Some (k, None) =>
      match password with
      | None => inr k
      | Some _ => inl (TypeError "Password was given but private key is not encrypted.")
      end
  | Some (k, Some p) =>
      match password with
      | None => inl (TypeError "Password was not given but private key is encrypted")
      | Some p' =>
          if decide (p = p') then inr k
          else inl (ValueError "Bad decrypt. Incorrect password?")
      end
  end.

(** [serialization.load_pem_public_key(data)] *)
Definition load_pem_public_key `{PemCodec} (data : bytes) : PyExn + RSAPublicKey :=
  match pem_public data with
  | None => inl (ValueError "Could not deserialize key data.")
  | Some k => inr k
  end.

(** [class Rsa] of [backend/constants.py], which is not among the sources:
    the two constants are parameters. *)
Class Rsa : Type := {
  KEY_SIZE : nat;
  PUBLIC_EXPONENT : nat
}.

Module RsaKeyManager.

(** [text.encode("utf-8")] *)
Definition encode (text : string) : bytes := String.list_byte_of_string text.

Definition newline : string := String (Ascii.ascii_of_nat 10) EmptyString.

Section Methods.
Context `{PemCodec} `{Rsa}.

(** [generate_private_key]; [entropy] is the randomness the generator
    draws. *)
Definition generate_private_key (entropy : nat) : PyExn + RSAPrivateKey :=
  rsa_generate_private_key PUBLIC_EXPONENT KEY_SIZE entropy.

(** [generate_public_key] *)
Definition generate_public_key (private_key : RSAPrivateKey) : PyExn + RSAPublicKey :=
  inr (public_key_of private_key).

(** The [encryption] chosen by [save_private_key_to_file]: the test
    [if password] fails for [None] and for the empty string. *)
Definition encryption_for (password : option string) : KeySerializationEncryption :=
  match password with
  | Some (String c rest) => BestAvailableEncryption (encode (String c rest))
  | Some EmptyString | None => NoEncryption
  end.

(** [save_private_key_to_file]: the new contents of the file system. *)
Definition save_private_key_to_file (entropy salt : nat)
    (output_pem_file_path : string) (password : option string)
    (private_key : option RSAPrivateKey) (fs : gmap string bytes)
    : PyExn + gmap string bytes :=
  match
    (match private_key with
     | None => rsa_generate_private_key PUBLIC_EXPONENT KEY_SIZE entropy
     | Some k => inr k
     end)
  with
  | inl e => inl e
  | inr private_key =>
      let encryption := encryption_for password in
      let private_file := <[output_pem_file_path := []]> fs in
      let private_pem := private_bytes private_key encryption salt in
      inr (<[output_pem_file_path := private_pem]> private_file)
  end.

(** [save_public_key_to_file] *)
Definition save_public_key_to_file (public_key : RSAPublicKey)
    (pem_file_path : string) (fs : gmap string bytes) : PyExn + gmap string bytes :=
  let public_file := <[pem_file_path := []]> fs in
  inr (<[pem_file_path := public_bytes public_key]> public_file).

(** [load_private_key_from_file] *)
Definition load_private_key_from_file (pem_file_path : string)
    (password : option string) (fs : gmap string bytes) : PyExn + RSAPrivateKey :=
  let password := encode <$> password in
  let attempt :=
    match fs !! pem_file_path with
    | None => inl (FileNotFoundError (no_such_file pem_file_path))
    | Some data => load_pem_private_key data password
    end in
  match attempt with
  | inr private_key => inr private_key
  | inl (FileNotFoundError _) =>
      inl (FileNotFoundError ("Private key file not found: " ++ pem_file_path))
  | inl e =>
      inl (Exception
             ("Failed to process private key. Please check file format and try again."
              ++ newline ++ newline ++ "Additional Info:" ++ newline ++ " " ++ str e))
  end.

(** [load_public_key_from_file] *)
Definition load_public_key_from_file (pem_file_path : string)
    (fs : gmap string bytes) : PyExn + RSAPublicKey :=
  let attempt :=
    match fs !! pem_file_path with
    | None => inl (FileNotFoundError (no_such_file pem_file_path))
    | Some data => load_pem_public_key data
    end in
  match attempt with
  | inr public_key => inr public_key
  | inl (FileNotFoundError _) =>
      inl (FileNotFoundError ("Public key file not found: " ++ pem_file_path))
  | inl e =>
      inl (Exception
             ("Failed to process public key. Please check file format and try again."
              ++ newline ++ newline ++ "Additional Info:" ++ newline ++ " " ++ str e))
  end.

(** [serialize_public_key] *)
Definition serialize_public_key (public_key : string) : PyExn + RSAPublicKey :=
  match load_pem_public_key (encode public_key) with
  | inr serialized_public_key => inr serialized_public_key
  | inl e =>
      inl (Exception
             ("Failed to serialize public key, most likely key was corrupted, or you made a mistake, when provided the key."
              ++ newline ++ "Please check your input, and try again."
              ++ newline ++ newline ++ "Additional Info:" ++ newline ++ " " ++ str e))
  end.

(** [serialize_private_key]: no [try] around the library call. *)
Definition serialize_private_key (private_key : string) (password : option string)
    : PyExn + RSAPrivateKey :=
  let password := encode <$> password in
  load_pem_private_key (encode private_key) password.
End Methods.


(** A plain [Exception] whose message carries the advice to check the
    input and try again. *)
Definition is_FormatError (e : PyExn) : Prop :=
  match e with
  | Exception msg =>
      exists advice detail : string,
        msg = (advice ++ newline ++ newline ++ "Additional Info:" ++ newline ++ " "
               ++ detail)%string
        /\ exists before : string, advice = (before ++ "and try again.")%string
  | _ => False
  end.

End RsaKeyManager.


(** ** The processing session of the specification *)

(** The successive [n]-byte slices of [data]; the last one may be shorter. *)
Fixpoint chunks_aux (fuel n : nat) (data : bytes) : list bytes :=
  match fuel with
  | 0 => []
  | S fuel' =>
      match take n data with
      | [] => []
      | chunk => chunk :: chunks_aux fuel' n (drop n data)
      end
  end.

Definition chunks (n : nat) (data : bytes) : list bytes :=
  chunks_aux (length data) n data.

(** The ways a session leaves [Running]. *)
Inductive SessionEnd : Type :=
| Completed
| Cancelled
| Failed (chunk : bytes) (e : PyExn).

Definition is_cancelled (fin : SessionEnd) : bool :=
  match fin with Cancelled => true | _ => false end.

(** The main loop as the specification words it, on the chunks still to
    come: the chunks processed, each with its result, and the way the
    session ends.  [flag] is the cancellation flag before iteration [i]. *)
Fixpoint session (stop_request : nat -> bool)
    (chunk_handler : nat -> bytes -> PyExn + bytes)
    (flag : bool) (i : nat) (todo : list bytes) : list (bytes * bytes) * SessionEnd :=
  if flag || stop_request i then ([], Cancelled)
  else
    match todo with
    | [] => ([], Completed)
    | chunk :: todo' =>
        match chunk_handler i chunk with
        | inl e => ([], Failed chunk e)
        | inr processed =>
            let '(done, fin) := session stop_request chunk_handler false (S i) todo' in
            ((chunk, processed) :: done, fin)
        end
    end.

(** The input and output a session performs. *)
Definition session_io (input output : string)
    (done : list (bytes * bytes)) (fin : SessionEnd) : list FileManager.IOEvent :=
  flat_map (fun cp => [FileManager.Read input cp.1; FileManager.Written output cp.2]) done
  ++ match fin with
     | Completed => [FileManager.Read input []]
     | Cancelled => [FileManager.Console "Process stopped by user."]
     | Failed chunk _ => [FileManager.Read input chunk]
     end.

(** Appending [data] to the file [output]. *)
Definition append_file (output : string) (fs : gmap string bytes) (data : bytes)
    : gmap string bytes :=
  <[output := default [] (fs !! output) ++ data]> fs.

(** The progress notifications of the processed chunks. *)
Definition progress_of (done : list (bytes * bytes)) : list FileManager.Signal :=
  map (fun cp => FileManager.update_processed_bytes (length cp.1)) done.

(** How the loop is left at the end of a session, and the state then. *)
Definition exit_of (fin : SessionEnd) : Outcome FileManager.LoopExit :=
  match fin with
  | Completed => Normal FileManager.Broke
  | Cancelled => Normal FileManager.Returned
  | Failed _ e => Raised e
  end.

Definition after_session (input output : string) (s : FileManager.State)
    (done : list (bytes * bytes)) (fin : SessionEnd) : FileManager.State :=
  FileManager.mkState
    (FileManager.mk (FileManager.chunk_encrypter (FileManager.self s)) (is_cancelled fin))
    (foldl (append_file output) (FileManager.files s) done.*2)
    (FileManager.emitted s ++ progress_of done)
    (FileManager.io_log s ++ session_io input output done fin).

(** The state once both files are open. *)
Definition opened (input output : string) (s : FileManager.State) : FileManager.State :=
  FileManager.mkState (FileManager.self s) (<[output := []]> (FileManager.files s))
    (FileManager.emitted s)
    ((FileManager.io_log s ++ [FileManager.Opened input "rb"])
     ++ [FileManager.Opened output "wb"]).

(** The state after the terminal notification of a session, if it has one. *)
Definition finish (input : string) (s : FileManager.State) (fin : SessionEnd)
    : FileManager.State :=
  match fin with
  | Completed =>
      FileManager.mkState (FileManager.self s) (FileManager.files s)
        (FileManager.emitted s ++ [FileManager.operation_completed]) (FileManager.io_log s)
  | Cancelled => s
  | Failed _ e =>
      FileManager.mkState (FileManager.self s) (FileManager.files s)
        (FileManager.emitted s ++ [FileManager.critical_error input (str e)])
        (FileManager.io_log s
         ++ [FileManager.Console ("Error processing file " ++ input ++ ": " ++ str e)])
  end.

(** What the input handle yields: nothing when the output path is the
    input path, since opening the output truncates the file. *)
Definition visible (input output : string) (content : bytes) : bytes :=
  if decide (input = output) then [] else content.

(** The terminal notifications are [completed] and [error]. *)
Definition is_terminal (sig : FileManager.Signal) : bool :=
  match sig with
  | FileManager.update_processed_bytes _ => false
  | FileManager.operation_completed | FileManager.critical_error _ _ => true
  end.

(** The byte counts the progress notifications of a log carry, in order. *)
Definition deltas (log : list FileManager.Signal) : list nat :=
  omap (fun sig => match sig with
                   | FileManager.update_processed_bytes n => Some n
                   | _ => None
                   end) log.


(** The data written according to a log. *)
Definition writes_of (log : list FileManager.IOEvent) : list bytes :=
  omap (fun ev => match ev with FileManager.Written _ data => Some data | _ => None end) log.

(** ** Concrete instances, to run the definitions *)

(** A stand-in for the primitive with the sizes of OAEP: the message, a
    [01] byte and zero bytes up to the modulus length. *)
Definition toy_pad (k : nat) (m : bytes) : bytes :=
  m ++ x01 :: replicate (k - 1 - length m) x00.

Fixpoint strip_zeros (l : bytes) : bytes :=
  match l with
  | x00 :: l' => strip_zeros l'
  | _ => l
  end.

Definition toy_unpad (c : bytes) : option bytes :=
  match strip_zeros (reverse c) with
  | x01 :: m => Some (reverse m)
  | _ => None
  end.

Definition toy_oaep : RsaOaep := {|
  oaep_encrypt pk r m := toy_pad (modulus_byte_len (pub_key_size pk)) m;
  oaep_decrypt sk c := toy_unpad c
|}.

(** A stand-in for the PEM codec: a tag byte, then the passphrase. *)
Definition toy_key : RSAPrivateKey := mkPrivateKey 4096 7.

Definition toy_codec : PemCodec := {|
  rsa_generate_private_key e bits entropy :=
    if decide (1024 <= bits) then inr (mkPrivateKey bits entropy)
    else inl (ValueError "key_size must be at least 1024-bits.");
  private_bytes k enc salt :=
    match enc with
    | NoEncryption => [x01]
    | BestAvailableEncryption password => x02 :: password
    end;
  public_bytes k := [x03];
  pem_private data :=
    match data with
    | [x01] => Some (toy_key, None)
    | x02 :: password => Some (toy_key, Some password)
    | _ => None
    end;
  pem_public data :=
    match data with
    | [x03] => Some (public_key_of toy_key)
    | _ => None
    end
|}.

(** A 2048-bit key: a modulus of 256 bytes. *)
Definition small_key : RSAPrivateKey := mkPrivateKey 2048 11.

(** A chunk handler that marks the end of every chunk. *)
Definition toy_handler (i : nat) (chunk : bytes) : PyExn + bytes := inr (chunk ++ [x2a]).

(** A stop request that arrives just before iteration [j] looks at the flag. *)
Definition stop_at (j : nat) : nat -> bool := fun i => Nat.eqb i j.

(** A chunk handler that raises on its call number [j]. *)
Definition failing_at (j : nat) (i : nat) (chunk : bytes) : PyExn + bytes :=
  if Nat.eqb i j then inl (DecryptError "decryption failed") else inr (chunk ++ [x2a]).

(** The result of a call of a chunk handler, if it returned. *)
Definition result_or_empty (r : PyExn + bytes) : bytes :=
  match r with
  | inr processed => processed
  | inl _ => []
  end.

(** A new [FileManager] object in the world of [s]. *)
Definition fresh_manager (s : FileManager.State) : FileManager.State :=
  FileManager.mkState FileManager.__init__ (FileManager.files s)
    (FileManager.emitted s) (FileManager.io_log s).

(** A chunk handler and its inverse: a mark byte before the chunk, padding
    zeros after it up to three bytes, and back. *)
Definition frame_handler (i : nat) (chunk : bytes) : PyExn + bytes :=
  match chunk with
  | [b] => inr [x01; b; x00]
  | [b1; b2] => inr [x02; b1; b2]
  | _ => inl (SizeError "one or two bytes")
  end.

Definition unframe_handler (i : nat) (block : bytes) : PyExn + bytes :=
  match block with
  | [x01; b; _] => inr [b]
  | [x02; b1; b2] => inr [b1; b2]
  | _ => inl (DecryptError "not a frame")
  end.

Definition rsa_4096 : Rsa := {| KEY_SIZE := 4096; PUBLIC_EXPONENT := 65537 |}.

Definition never : nat -> bool := fun _ => false.

Definition empty_state : FileManager.State :=
  FileManager.mkState FileManager.__init__ ∅ [] [].

Definition with_file (path : string) (data : bytes) (s : FileManager.State)
    : FileManager.State :=
  FileManager.mkState (FileManager.self s) (<[path := data]> (FileManager.files s))
    (FileManager.emitted s) (FileManager.io_log s).


(** * Proofs *)

(** ** Slices *)

Lemma take_nil_iff {A} (n : nat) (l : list A) : take n l = [] <-> n = 0 \/ l = [].
Proof.
  destruct n, l; simpl; split; intros; auto; try discriminate;
    destruct H as [H|H]; discriminate.
Qed.

Lemma chunks_aux_enough (n : nat) :
  forall fuel1 fuel2 data,
    length data <= fuel1 -> length data <= fuel2 ->
    chunks_aux fuel1 n data = chunks_aux fuel2 n data.
Proof.
  induction fuel1 as [|fuel1 IH]; intros fuel2 data H1 H2.
  - destruct data; [|simpl in H1; lia].
    destruct fuel2; simpl; [done|]. by rewrite take_nil.
  - destruct fuel2 as [|fuel2].
    + destruct data; [|simpl in H2; lia].
      simpl. by rewrite take_nil.
    + simpl. destruct (take n data) as [|b chunk] eqn:E; [done|].
      f_equal. assert (n <> 0 /\ data <> []) as [Hn Hd].
      { split; intros ->; [by rewrite take_0 in E | by rewrite take_nil in E]. }
      assert (length (drop n data) < length data).
      { rewrite length_drop. destruct data; [done|simpl; lia]. }
      apply IH; lia.
Qed.

Lemma chunks_nil (n : nat) : chunks n [] = [].
Proof. reflexivity. Qed.

Lemma chunks_zero (data : bytes) : chunks 0 data = [].
Proof. unfold chunks. destruct data; reflexivity. Qed.

Lemma chunks_step (n : nat) (data : bytes) :
  take n data <> [] ->
  chunks n data = take n data :: chunks n (drop n data).
Proof.
  intros Hne. unfold chunks at 1.
  destruct data as [|b data]; [by rewrite take_nil in Hne|].
  cbn [length chunks_aux].
  destruct (take n (b :: data)) as [|c chunk] eqn:E; [done|].
  f_equal. apply chunks_aux_enough; [|done].
  rewrite length_drop. destruct n; [by rewrite take_0 in E|simpl; lia].
Qed.

Lemma chunks_empty_read (n : nat) (data : bytes) : take n data = [] -> chunks n data = [].
Proof.
  intros E. unfold chunks. destruct data; [done|].
  cbn [length chunks_aux]. by rewrite E.
Qed.

Lemma concat_chunks (n : nat) (data : bytes) : 0 < n -> concat (chunks n data) = data.
Proof.
  intros Hn. remember (length data) as k eqn:Hk.
  revert data Hk. induction k as [k IH] using lt_wf_ind. intros data Hk.
  destruct data as [|b data]; [done|].
  rewrite chunks_step.
  - simpl concat. rewrite (IH (length (drop n (b :: data)))); [apply take_drop| |done].
    rewrite length_drop. simpl in *. lia.
  - destruct n; [lia|done].
Qed.

Lemma chunks_nonempty (n : nat) (data : bytes) : Forall (fun c => 0 < length c) (chunks n data).
Proof.
  remember (length data) as k eqn:Hk.
  revert data Hk. induction k as [k IH] using lt_wf_ind. intros data Hk.
  destruct (take n data) as [|c chunk] eqn:E.
  - rewrite chunks_empty_read; [constructor|done].
  - rewrite chunks_step; [|by rewrite E]. constructor.
    + rewrite E. simpl. lia.
    + apply (IH (length (drop n data))); [|done].
      rewrite length_drop.
      destruct n; [by rewrite take_0 in E|]. destruct data; [done|]. simpl in *. lia.
Qed.

Lemma chunks_bounded (n : nat) (data : bytes) : Forall (fun c => length c <= n) (chunks n data).
Proof.
  remember (length data) as k eqn:Hk.
  revert data Hk. induction k as [k IH] using lt_wf_ind. intros data Hk.
  destruct (take n data) as [|c chunk] eqn:E.
  - rewrite chunks_empty_read; [constructor|done].
  - rewrite chunks_step; [|by rewrite E]. constructor.
    + rewrite length_take. lia.
    + apply (IH (length (drop n data))); [|done].
      rewrite length_drop.
      destruct n; [by rewrite take_0 in E|]. destruct data; [done|]. simpl in *. lia.
Qed.

(** Blocks of one positive length are the slices of their concatenation. *)
Lemma chunks_concat (n : nat) (blocks : list bytes) :
  0 < n -> Forall (fun b => length b = n) blocks -> chunks n (concat blocks) = blocks.
Proof.
  intros Hn. induction 1 as [|b blocks Hb _ IH]; [done|].
  simpl concat.
  assert (take n (b ++ concat blocks) = b) as Ht by (by rewrite take_app_length').
  rewrite chunks_step.
  - rewrite Ht. f_equal. by rewrite drop_app_length'.
  - rewrite Ht. destruct b; [simpl in Hb; lia|done].
Qed.


(** ** The loop refines the session *)

Lemma session_cancel stop_request chunk_handler flag i todo :
  flag || stop_request i = true ->
  session stop_request chunk_handler flag i todo = ([], Cancelled).
Proof. intros E. destruct todo; simpl; by rewrite E. Qed.

Lemma session_nil stop_request chunk_handler flag i :
  flag || stop_request i = false ->
  session stop_request chunk_handler flag i [] = ([], Completed).
Proof. intros E. simpl. by rewrite E. Qed.

Lemma session_cons stop_request chunk_handler flag i chunk todo :
  flag || stop_request i = false ->
  session stop_request chunk_handler flag i (chunk :: todo) =
  match chunk_handler i chunk with
  | inl e => ([], Failed chunk e)
  | inr processed =>
      let df := session stop_request chunk_handler false (S i) todo in
      ((chunk, processed) :: df.1, df.2)
  end.
Proof.
  intros E. simpl. rewrite E. destruct (chunk_handler i chunk); [done|].
  by destruct (session _ _ _ _ _).
Qed.

Lemma drop_length_take {A} (n : nat) (l : list A) : drop (length (take n l)) l = drop n l.
Proof.
  rewrite length_take. destruct (decide (n <= length l)).
  - by rewrite Nat.min_l.
  - rewrite Nat.min_r by lia. rewrite drop_all. by rewrite drop_ge by lia.
Qed.

Section ProcessingLoop.
Import FileManager.

Variable stop_request : nat -> bool.
Variable chunk_handler : nat -> bytes -> PyExn + bytes.
Variable chunk_size : nat.
Variables input output : string.

(** One iteration, spelled out. *)
Lemma process_loop_step (fuel i pos : nat) (s : State) :
  process_loop stop_request chunk_handler chunk_size output (S fuel) i (mkInFile input pos) s =
  if _stop_flag (self s) || stop_request i then
    (Normal Returned,
     mkState (mk (chunk_encrypter (self s)) true) (files s) (emitted s)
       (io_log s ++ [Console "Process stopped by user."]))
  else
    let chunk := take chunk_size (drop pos (default [] (files s !! input))) in
    match chunk with
    | [] => (Normal Broke, mkState (self s) (files s) (emitted s) (io_log s ++ [Read input []]))
    | _ :: _ =>
        match chunk_handler i chunk with
        | inl e =>
            (Raised e, mkState (self s) (files s) (emitted s) (io_log s ++ [Read input chunk]))
        | inr processed =>
            process_loop stop_request chunk_handler chunk_size output fuel (S i)
              (mkInFile input (pos + length chunk))
              (mkState (self s) (append_file output (files s) processed)
                 (emitted s ++ [update_processed_bytes (length chunk)])
                 ((io_log s ++ [Read input chunk]) ++ [Written output processed]))
        end
    end.
Proof.
  destruct s as [[ce flag] fs sigs log].
  cbn [process_loop]. unfold bind at 1. unfold poll_stop_flag.
  destruct flag, (stop_request i); try reflexivity.
  cbn -[process_loop take drop].
  destruct (take chunk_size (drop pos (default [] (fs !! input)))) as [|b chunk] eqn:E;
    [reflexivity|].
  unfold bind at 1. destruct (chunk_handler i (b :: chunk)); reflexivity.
Qed.

(** The loop on an input that the output does not alias: it ends, the way
    the session does, in the state the session describes. *)
Lemma process_loop_session :
  input <> output ->
  forall (fuel i pos : nat) (s : State) (content : bytes),
    files s !! input = Some content ->
    length (drop pos content) < fuel ->
    let df := session stop_request chunk_handler (_stop_flag (self s)) i
                (chunks chunk_size (drop pos content)) in
    process_loop stop_request chunk_handler chunk_size output fuel i (mkInFile input pos) s =
    (exit_of df.2, after_session input output s df.1 df.2).
Proof.
  intros Hne. induction fuel as [|fuel IH]; intros i pos s content Hin Hfuel; [lia|].
  rewrite process_loop_step. cbn zeta.
  destruct (_stop_flag (self s) || stop_request i) eqn:Hstop.
  { rewrite session_cancel by done. unfold after_session. simpl.
    by rewrite app_nil_r. }
  rewrite Hin. simpl default.
  apply orb_false_iff in Hstop as Hflag. destruct Hflag as [Hflag _].
  destruct (take chunk_size (drop pos content)) as [|b chunk] eqn:E.
  { rewrite chunks_empty_read by done. rewrite session_nil by done.
    unfold after_session. simpl. rewrite app_nil_r.
    destruct s as [[ce flag] fs sigs log]. simpl in *. by subst. }
  rewrite chunks_step by (by rewrite E). rewrite E.
  rewrite session_cons by done.
  destruct (chunk_handler i (b :: chunk)) as [e|processed].
  { unfold after_session. simpl. rewrite app_nil_r.
    destruct s as [[ce flag] fs sigs log]. simpl in *. by subst. }
  set (s1 := mkState _ _ _ _).
  assert (drop (pos + length (b :: chunk)) content = drop chunk_size (drop pos content)) as Hd.
  { rewrite <- E. rewrite <- drop_drop. apply drop_length_take. }
  rewrite (IH (S i) (pos + length (b :: chunk)) s1 content).
  - rewrite Hd. change (_stop_flag (self s1)) with (_stop_flag (self s)). rewrite Hflag.
    unfold after_session. simpl. by rewrite <- !app_assoc.
  - unfold s1, append_file. simpl. by rewrite lookup_insert_ne.
  - rewrite Hd. rewrite length_drop.
    assert (chunk_size <> 0) by (intros ->; by rewrite take_0 in E).
    assert (0 < length (drop pos content)); [|lia].
    destruct (drop pos content); [by rewrite take_nil in E|simpl; lia].
Qed.

End ProcessingLoop.

Section ProcessFile.
Import FileManager.

Implicit Types (stop_request : nat -> bool) (chunk_handler : nat -> bytes -> PyExn + bytes).
Implicit Types (chunk_size : nat) (input output : string) (s : State).

(** The loop on an empty input. *)
Lemma process_loop_empty stop_request chunk_handler chunk_size input output
    (fuel i pos : nat) s :
  files s !! input = Some [] ->
  let df := session stop_request chunk_handler (_stop_flag (self s)) i [] in
  process_loop stop_request chunk_handler chunk_size output (S fuel) i (mkInFile input pos) s =
  (exit_of df.2, after_session input output s df.1 df.2).
Proof.
  intros Hin. rewrite process_loop_step. cbn zeta.
  destruct (_stop_flag (self s) || stop_request i) eqn:Hstop.
  - rewrite session_cancel by done. unfold after_session. simpl. by rewrite app_nil_r.
  - rewrite Hin. simpl default. rewrite drop_nil, take_nil.
    rewrite session_nil by done. unfold after_session. simpl. rewrite app_nil_r.
    apply orb_false_iff in Hstop as [Hflag _].
    destruct s as [[ce flag] fs sigs log]. simpl in *. by subst.
Qed.

(** A missing input: the error notification, nothing else. *)
Lemma process_file_missing stop_request chunk_handler chunk_size input output s :
  files s !! input = None ->
  _process_file stop_request input output chunk_handler chunk_size s =
  (Normal tt,
   mkState (self s) (files s)
     (emitted s ++ [critical_error input (no_such_file input)])
     (io_log s ++ [Console ("Error processing file " ++ input ++ ": "
                            ++ no_such_file input)])).
Proof.
  intros Hin. cbv [_process_file try_except open_rb bind get_files].
  rewrite Hin. reflexivity.
Qed.

(** [_process_file] on an existing input: the session on the slices of
    what the input handle yields, then the terminal notification. *)
Lemma process_file_session stop_request chunk_handler chunk_size input output s
    (content : bytes) :
  files s !! input = Some content ->
  let df := session stop_request chunk_handler (_stop_flag (self s)) 0
              (chunks chunk_size (visible input output content)) in
  _process_file stop_request input output chunk_handler chunk_size s =
  (Normal tt,
   finish input (after_session input output (opened input output s) df.1 df.2) df.2).
Proof.
  intros Hin. cbv [_process_file try_except open_rb bind get_files].
  rewrite Hin. cbv [log_io ret open_wb bind set_file get_files].
  cbn [files self emitted io_log].
  set (s1 := mkState _ _ _ _).
  change s1 with (opened input output s).
  unfold visible. destruct (decide (input = output)) as [Heq|Hne].
  - subst output. rewrite lookup_insert_eq. simpl default. simpl length.
    rewrite chunks_nil.
    rewrite (process_loop_empty _ _ _ input input 0 0 0 (opened input input s))
      by (simpl; apply lookup_insert_eq).
    change (_stop_flag (self (opened input input s))) with (_stop_flag (self s)).
    destruct (session _ _ _ _ _) as [done [| |c e]]; reflexivity.
  - rewrite lookup_insert_ne by done. rewrite Hin. simpl default.
    pose proof (process_loop_session stop_request chunk_handler chunk_size input output Hne
                  (S (length content)) 0 0 (opened input output s) content) as H.
    rewrite drop_0 in H. cbn zeta in H. rewrite H.
    + change (_stop_flag (self (opened input output s))) with (_stop_flag (self s)).
      destruct (session _ _ _ _ _) as [done [| |c e]]; reflexivity.
    + simpl. by rewrite lookup_insert_ne.
    + lia.
Qed.

End ProcessFile.

(** ** Facts about sessions *)

Lemma session_done stop_request chunk_handler :
  forall (todo : list bytes) (flag : bool) (i : nat) done fin,
    session stop_request chunk_handler flag i todo = (done, fin) ->
    done.*1 = take (length done) todo
    /\ (forall k c p, done !! k = Some (c, p) -> chunk_handler (i + k) c = inr p)
    /\ match fin with
       | Completed => length done = length todo
       | Cancelled => length done <= length todo
       | Failed c e =>
           todo !! length done = Some c /\ chunk_handler (i + length done) c = inl e
       end.
Proof.
  induction todo as [|chunk todo IH]; intros flag i done fin Hs.
  - destruct (flag || stop_request i) eqn:E.
    + rewrite session_cancel in Hs by done. by simplify_eq.
    + rewrite session_nil in Hs by done. by simplify_eq.
  - destruct (flag || stop_request i) eqn:E.
    { rewrite session_cancel in Hs by done. simplify_eq. simpl. repeat split; [done|lia]. }
    rewrite session_cons in Hs by done.
    destruct (chunk_handler i chunk) as [e|p] eqn:Eh.
    { simplify_eq. simpl. rewrite Nat.add_0_r. by repeat split. }
    destruct (session stop_request chunk_handler false (S i) todo) as [done' fin'] eqn:Es.
    simpl in Hs. simplify_eq.
    destruct (IH _ _ _ _ Es) as (Hd & Hh & Hf).
    simpl. repeat split.
    + by f_equal.
    + intros [|k] c q Hk; simpl in Hk.
      * simplify_eq. by rewrite Nat.add_0_r.
      * replace (i + S k) with (S i + k) by lia. by apply Hh.
    + destruct fin as [| |c e]; simpl; [lia|lia|].
      replace (i + S (length done')) with (S i + length done') by lia. done.
Qed.

(** No stop request and no failure: the session completes every chunk. *)
Lemma session_all stop_request chunk_handler :
  (forall i, stop_request i = false) ->
  forall (todo outs : list bytes) (i : nat),
    length todo = length outs ->
    (forall k c p, todo !! k = Some c -> outs !! k = Some p ->
                   chunk_handler (i + k) c = inr p) ->
    session stop_request chunk_handler false i todo = (zip todo outs, Completed).
Proof.
  intros Hnever. induction todo as [|c todo IH]; intros outs i Hlen Hh.
  - destruct outs; [|done]. by rewrite session_nil by (by rewrite Hnever).
  - destruct outs as [|p outs]; [done|].
    rewrite session_cons by (by rewrite Hnever).
    pose proof (Hh 0 c p eq_refl eq_refl) as H0. rewrite Nat.add_0_r in H0. rewrite H0.
    rewrite (IH outs (S i)).
    + done.
    + simpl in Hlen. lia.
    + intros k c' p' Hc Hp. replace (S i + k) with (i + S k) by lia. by apply Hh.
Qed.

(** A stop request seen at iteration [j], reached without failure. *)
Lemma session_cancelled_at stop_request chunk_handler :
  forall (j : nat) (todo : list bytes) (flag : bool) (i : nat),
    (forall k, k < j -> flag || stop_request (i + k) = false) ->
    flag || stop_request (i + j) = true ->
    j <= length todo ->
    (forall k c, k < j -> todo !! k = Some c -> exists p, chunk_handler (i + k) c = inr p) ->
    exists done,
      session stop_request chunk_handler flag i todo = (done, Cancelled)
      /\ done.*1 = take j todo.
Proof.
  induction j as [|j IH]; intros todo flag i Hbefore Hat Hlen Hok.
  - rewrite Nat.add_0_r in Hat. exists []. rewrite session_cancel by done.
    by rewrite take_0.
  - destruct todo as [|c todo]; [simpl in Hlen; lia|].
    pose proof (Hbefore 0 ltac:(lia)) as H0. rewrite Nat.add_0_r in H0.
    apply orb_false_iff in H0 as Hflag. destruct Hflag as [-> _].
    rewrite session_cons by done.
    destruct (Hok 0 c ltac:(lia) eq_refl) as [p Hp]. rewrite Nat.add_0_r in Hp.
    rewrite Hp.
    destruct (IH todo false (S i)) as (done & Hs & Hd).
    + intros k Hk. replace (S i + k) with (i + S k) by lia. apply Hbefore. lia.
    + by replace (S i + j) with (i + S j) by lia.
    + simpl in Hlen. lia.
    + intros k c' Hk Hc. replace (S i + k) with (i + S k) by lia.
      apply Hok; [lia|done].
    + exists ((c, p) :: done). rewrite Hs. split; [done|]. simpl. by f_equal.
Qed.

(** The output file after a session. *)
Lemma foldl_append_file_lookup (output : string) (ds : list bytes) :
  forall (fs : gmap string bytes) (old : bytes),
    fs !! output = Some old ->
    foldl (append_file output) fs ds !! output = Some (old ++ concat ds).
Proof.
  induction ds as [|d ds IH]; intros fs old Hold; simpl.
  - by rewrite app_nil_r.
  - rewrite (IH _ (old ++ d)).
    + by rewrite app_assoc.
    + unfold append_file. rewrite Hold. apply lookup_insert_eq.
Qed.

Lemma foldl_append_file_other (output path : string) (ds : list bytes) :
  path <> output ->
  forall fs : gmap string bytes, foldl (append_file output) fs ds !! path = fs !! path.
Proof.
  intros Hne. induction ds as [|d ds IH]; intros fs; simpl; [done|].
  rewrite IH. unfold append_file. by rewrite lookup_insert_ne.
Qed.

(** The logs of a session. *)
Lemma deltas_progress_of (done : list (bytes * bytes)) :
  deltas (progress_of done) = map length done.*1.
Proof. induction done as [|[c p] done IH]; simpl; [done|]. by f_equal. Qed.


Lemma writes_of_app (l1 l2 : list FileManager.IOEvent) :
  writes_of (l1 ++ l2) = writes_of l1 ++ writes_of l2.
Proof. apply omap_app. Qed.

Lemma writes_of_session_io (input output : string) done fin :
  writes_of (session_io input output done fin) = done.*2.
Proof.
  unfold session_io. rewrite writes_of_app.
  replace (writes_of match fin with
                     | Completed => [FileManager.Read input []]
                     | Cancelled => [FileManager.Console "Process stopped by user."]
                     | Failed chunk _ => [FileManager.Read input chunk]
                     end) with (@nil bytes) by (by destruct fin).
  rewrite app_nil_r. induction done as [|[c p] done IH]; simpl; [done|].
  unfold writes_of in *. simpl. by f_equal.
Qed.

(** ** The processing loop: notifications *)

Section Notifications.
Import FileManager.

(** The notifications of a call on an existing input: the progress of the
    processed chunks, then the terminal notification of the session. *)
Lemma process_file_emitted stop_request chunk_handler chunk_size input output s
    (content : bytes) done fin :
  files s !! input = Some content ->
  session stop_request chunk_handler (_stop_flag (self s)) 0
    (chunks chunk_size (visible input output content)) = (done, fin) ->
  emitted (_process_file stop_request input output chunk_handler chunk_size s).2 =
  emitted s ++ progress_of done
  ++ match fin with
     | Completed => [operation_completed]
     | Cancelled => []
     | Failed _ e => [critical_error input (str e)]
     end.
Proof.
  intros Hin Hs. rewrite (process_file_session _ _ _ _ _ _ content Hin).
  cbn zeta. rewrite Hs. simpl.
  destruct fin; simpl; by rewrite <- ?app_assoc, ?app_nil_r.
Qed.


End Notifications.

(** ** The processing loop: output and progress *)



Lemma elem_of_progress_of (sig : FileManager.Signal) (done : list (bytes * bytes)) :
  sig ∈ progress_of done -> is_terminal sig = false.
Proof.
  unfold progress_of. rewrite list_elem_of_fmap. by intros (cp & -> & _).
Qed.

Section Output.
Import FileManager.

(** C5. A run that emits [operation_completed] leaves in the output file
    exactly the concatenation, in input order, of the results of the chunk
    handler on the successive [chunk_size]-byte slices that the input
    handle yields: nothing before, between or after them. *)
Theorem completed_output_is_concatenation
    (stop_request : nat -> bool) (chunk_handler : nat -> bytes -> PyExn + bytes)
    (chunk_size : nat) (input output : string) (s s' : State)
    (content : bytes) (log : list Signal) :
  files s !! input = Some content ->
  (_process_file stop_request input output chunk_handler chunk_size s).2 = s' ->
  emitted s' = emitted s ++ log ->
  operation_completed ∈ log ->
  exists outs : list bytes,
    files s' !! output = Some (concat outs)
    /\ length outs = length (chunks chunk_size (visible input output content))
    /\ forall k c p,
         chunks chunk_size (visible input output content) !! k = Some c ->
         outs !! k = Some p ->
         chunk_handler k c = inr p.
Proof.
  intros Hin Hrun Hlog Hcompleted.
  destruct (session stop_request chunk_handler (_stop_flag (self s)) 0
              (chunks chunk_size (visible input output content))) as [done fin] eqn:Hs.
  pose proof (process_file_emitted _ _ _ _ _ _ _ _ _ Hin Hs) as Hem.
  rewrite Hrun, Hlog in Hem. apply app_inv_head in Hem. subst log.
  assert (fin = Completed) as ->.
  { apply elem_of_app in Hcompleted as [H|H].
    - apply elem_of_progress_of in H. done.
    - destruct fin as [| |c e]; [done|by apply elem_of_nil in H|].
      apply list_elem_of_singleton in H. done. }
  destruct (session_done _ _ _ _ _ _ _ Hs) as (Hd & Hh & Hlen).
  rewrite Hlen, firstn_all in Hd.
  exists done.*2. split; [|split].
  - rewrite (process_file_session _ _ _ _ _ _ content Hin) in Hrun.
    cbn zeta in Hrun. rewrite Hs in Hrun. simpl in Hrun. subst s'. simpl.
    rewrite (foldl_append_file_lookup output _ _ []); [done|].
    apply lookup_insert_eq.
  - by rewrite length_fmap.
  - intros k c p Hc Hp. apply (Hh k c p).
    rewrite <- Hd in Hc. rewrite !list_lookup_fmap in *.
    destruct (done !! k) as [[c' p']|]; simpl in *; by simplify_eq.
Qed.


End Output.

(** ** The processing loop: cancellation *)

Section Cancellation.
Import FileManager.

(** A stop request bounds the output: when one has arrived by the time
    iteration [j] looks at the flag, at most [j] chunks are ever written. *)
Lemma session_bounded_by_stop_request stop_request chunk_handler :
  forall (todo : list bytes) (flag : bool) (i j : nat),
    flag || stop_request (i + j) = true ->
    length (session stop_request chunk_handler flag i todo).1 <= j.
Proof.
  induction todo as [|c todo IH]; intros flag i j Hj.
  - destruct (flag || stop_request i) eqn:E.
    + rewrite session_cancel by done. simpl. lia.
    + rewrite session_nil by done. simpl. lia.
  - destruct (flag || stop_request i) eqn:E.
    { rewrite session_cancel by done. simpl. lia. }
    rewrite session_cons by done.
    destruct (chunk_handler i c); simpl; [lia|].
    destruct j as [|j]; [rewrite Nat.add_0_r in Hj; congruence|].
    apply orb_false_iff in E as [-> _].
    specialize (IH false (S i) j). replace (S i + j) with (i + S j) in IH by lia.
    specialize (IH Hj). lia.
Qed.

(** C4. The flag is looked at first in every iteration.  When iteration
    [j] is the first to see it set and the session gets that far, the run
    stops there: it has read and written the first [j] chunks and nothing
    more, it has emitted their progress notifications and no terminal
    notification, and the output file holds the [j] results.  A request
    that iteration [j] sees was made after iteration [j - 1] looked at the
    flag, so at most the one chunk of iteration [j - 1] is written after
    it. *)
Theorem stop_flag_halts_session
    (stop_request : nat -> bool) (chunk_handler : nat -> bytes -> PyExn + bytes)
    (chunk_size : nat) (input output : string) (s : State) (content : bytes) (j : nat) :
  files s !! input = Some content ->
  (forall k, k < j -> _stop_flag (self s) || stop_request k = false) ->
  _stop_flag (self s) || stop_request j = true ->
  j <= length (chunks chunk_size (visible input output content)) ->
  (forall k c, k < j ->
     chunks chunk_size (visible input output content) !! k = Some c ->
     exists p, chunk_handler k c = inr p) ->
  exists (s' : State) (done : list (bytes * bytes)),
    _process_file stop_request input output chunk_handler chunk_size s = (Normal tt, s')
    /\ done.*1 = take j (chunks chunk_size (visible input output content))
    /\ (forall k c p, done !! k = Some (c, p) -> chunk_handler k c = inr p)
    /\ io_log s' =
       io_log s ++ [Opened input "rb"; Opened output "wb"]
       ++ flat_map (fun cp => [Read input cp.1; Written output cp.2]) done
       ++ [Console "Process stopped by user."]
    /\ emitted s' = emitted s ++ progress_of done
    /\ Forall (fun sig => is_terminal sig = false) (progress_of done)
    /\ files s' !! output = Some (concat done.*2)
    /\ _stop_flag (self s') = true.
Proof.
  intros Hin Hbefore Hat Hlen Hok.
  destruct (session_cancelled_at stop_request chunk_handler j
              (chunks chunk_size (visible input output content))
              (_stop_flag (self s)) 0) as (done & Hs & Hd);
    [exact Hbefore|exact Hat|exact Hlen|exact Hok|].
  pose proof (process_file_emitted _ _ _ _ _ _ _ _ _ Hin Hs) as Hem.
  destruct (session_done _ _ _ _ _ _ _ Hs) as (_ & Hh & _).
  rewrite (process_file_session _ _ _ _ _ _ content Hin) in *.
  cbn zeta in *. rewrite Hs in *. simpl in Hem. rewrite app_nil_r in Hem.
  eexists _, done. split; [reflexivity|]. split; [exact Hd|]. split; [exact Hh|].
  split; [|split; [exact Hem|split; [|split]]].
  - simpl. unfold session_io. by rewrite <- !app_assoc.
  - apply Forall_forall. intros sig. apply elem_of_progress_of.
  - simpl. rewrite (foldl_append_file_lookup output _ _ []); [done|].
    apply lookup_insert_eq.
  - done.
Qed.

(** X19. Whatever else happens, a stop request that has arrived by the time
    iteration [j] looks at the flag leaves at most [j] chunks written. *)
Lemma writes_bounded_by_stop_request
    (stop_request : nat -> bool) (chunk_handler : nat -> bytes -> PyExn + bytes)
    (chunk_size : nat) (input output : string) (s : State) (j : nat) :
  _stop_flag (self s) || stop_request j = true ->
  exists (s' : State) (io : list IOEvent),
    _process_file stop_request input output chunk_handler chunk_size s = (Normal tt, s')
    /\ io_log s' = io_log s ++ io
    /\ length (writes_of io) <= j.
Proof.
  intros Hj. destruct (files s !! input) as [content|] eqn:Hin.
  - rewrite (process_file_session _ _ _ _ _ _ content Hin). cbn zeta.
    pose proof (session_bounded_by_stop_request stop_request chunk_handler
                  (chunks chunk_size (visible input output content))
                  (_stop_flag (self s)) 0 j Hj) as Hbound.
    destruct (session _ _ _ _ _) as [done fin]. simpl in Hbound.
    exists (finish input (after_session input output (opened input output s) done fin) fin),
      ([Opened input "rb"; Opened output "wb"] ++ session_io input output done fin
       ++ match fin with
          | Failed _ e => [Console ("Error processing file " ++ input ++ ": " ++ str e)]
          | _ => []
          end).
    split; [done|]. split.
    + destruct fin; simpl; by rewrite <- ?app_assoc, ?app_nil_r.
    + rewrite !writes_of_app, writes_of_session_io. simpl.
      replace (writes_of _) with (@nil bytes) by (by destruct fin).
      rewrite app_nil_r, length_fmap. exact Hbound.
  - rewrite process_file_missing by done.
    eexists _, [Console _]. split; [reflexivity|]. split; [reflexivity|]. simpl. lia.
Qed.

(** X18. When the output path is the input path, opening the output empties the
    file before the first read: the run completes at once. *)
Lemma process_file_aliased
    (stop_request : nat -> bool) (chunk_handler : nat -> bytes -> PyExn + bytes)
    (chunk_size : nat) (path : string) (s : State) (content : bytes) :
  files s !! path = Some content ->
  _stop_flag (self s) || stop_request 0 = false ->
  exists s' : State,
    _process_file stop_request path path chunk_handler chunk_size s = (Normal tt, s')
    /\ files s' !! path = Some []
    /\ emitted s' = emitted s ++ [operation_completed].
Proof.
  intros Hin Hstop. rewrite (process_file_session _ _ _ _ _ _ content Hin). cbn zeta.
  unfold visible. rewrite decide_True by done. rewrite chunks_nil.
  rewrite session_nil by done. eexists. split; [reflexivity|]. simpl.
  split; [apply lookup_insert_eq|]. by rewrite app_nil_r.
Qed.

End Cancellation.

(** ** The two entry points *)

Section EntryPoints.
Import FileManager.
Context `{RsaOaep}.

(** [encrypt_file] stores the cipher it builds for the public key and
    processes the input with [encrypt_chunk] in chunks of
    [Size.ENCRYPTION_CHUNK] bytes. *)
Lemma encrypt_file_unfold stop_request input output (pk : RSAPublicKey) (s : State) :
  encrypt_file stop_request input output pk s =
  _process_file stop_request input output
    (ChunkEncrypter.encrypt_chunk (ChunkEncrypter.mk (Some pk) None)) Size.ENCRYPTION_CHUNK
    (mkState (mk (Some (ChunkEncrypter.mk (Some pk) None)) (_stop_flag (self s)))
       (files s) (emitted s) (io_log s)).
Proof. reflexivity. Qed.

Lemma decrypt_file_unfold stop_request input output (sk : RSAPrivateKey) (s : State) :
  decrypt_file stop_request input output sk s =
  _process_file stop_request input output
    (ChunkEncrypter.decrypt_chunk (ChunkEncrypter.mk None (Some sk))) Size.DECRYPTION_CHUNK
    (mkState (mk (Some (ChunkEncrypter.mk None (Some sk))) (_stop_flag (self s)))
       (files s) (emitted s) (io_log s)).
Proof. reflexivity. Qed.



End EntryPoints.



(** ** Encrypting and decrypting a file *)

Lemma strip_zeros_replicate (n : nat) (l : bytes) :
  strip_zeros (replicate n x00 ++ x01 :: l) = x01 :: l.
Proof. induction n as [|n IH]; [done|]. simpl. exact IH. Qed.

Lemma toy_unpad_pad (k : nat) (m : bytes) : toy_unpad (toy_pad k m) = Some m.
Proof.
  unfold toy_unpad, toy_pad.
  rewrite reverse_app, reverse_cons, reverse_replicate, <- app_assoc. simpl.
  rewrite strip_zeros_replicate. by rewrite reverse_involutive.
Qed.

Lemma toy_pad_length (k : nat) (m : bytes) : length m < k -> length (toy_pad k m) = k.
Proof.
  intros Hlt. unfold toy_pad. rewrite length_app. simpl. rewrite length_replicate. lia.
Qed.

Lemma toy_oaep_correct (sk : RSAPrivateKey) :
  66 <= modulus_byte_len (key_size sk) -> @oaep_correct toy_oaep sk.
Proof.
  intros Hk r m Hm. unfold max_plaintext_len in Hm. simpl. split.
  - apply toy_pad_length. lia.
  - apply toy_unpad_pad.
Qed.

Section RoundTrip.
Import FileManager.
Context `{RsaOaep}.

Variable sk : RSAPrivateKey.
Hypothesis Hcorrect : oaep_correct sk.
Hypothesis Hmodulus : modulus_byte_len (key_size sk) = Size.DECRYPTION_CHUNK.

Lemma capacity_is_encryption_chunk : max_plaintext_len (key_size sk) = Size.ENCRYPTION_CHUNK.
Proof using Hmodulus. unfold max_plaintext_len. rewrite Hmodulus. reflexivity. Qed.

(** The ciphertext blocks of the chunks of a plaintext. *)
Lemma encrypt_chunk_ok (k : nat) (c : bytes) :
  length c <= Size.ENCRYPTION_CHUNK ->
  ChunkEncrypter.encrypt_chunk (ChunkEncrypter.mk (Some (public_key_of sk)) None) k c
  = inr (oaep_encrypt (public_key_of sk) k c).
Proof using Hmodulus.
  intros Hc. unfold ChunkEncrypter.encrypt_chunk. simpl.
  rewrite capacity_is_encryption_chunk. by rewrite decide_True.
Qed.

Lemma decrypt_chunk_ok (k r : nat) (c : bytes) :
  length c <= Size.ENCRYPTION_CHUNK ->
  ChunkEncrypter.decrypt_chunk (ChunkEncrypter.mk None (Some sk)) k
    (oaep_encrypt (public_key_of sk) r c)
  = inr c.
Proof using Hmodulus Hcorrect.
  intros Hc. unfold ChunkEncrypter.decrypt_chunk. simpl.
  destruct (Hcorrect r c) as [Hlen Hdec]; [by rewrite capacity_is_encryption_chunk|].
  rewrite decide_True by done. by rewrite Hdec.
Qed.

(** C1, as amended.  For a key pair whose modulus is
    [Size.DECRYPTION_CHUNK] bytes long, when no stop request arrives and the
    ciphertext file is neither the plaintext file nor the restored file,
    [encrypt_file] with the public key followed by [decrypt_file] with the
    private key returns normally twice and leaves the plaintext, byte for
    byte, in the restored file. *)
Theorem encrypt_then_decrypt_restores
    (stop_request1 stop_request2 : nat -> bool) (plain cipher restored : string)
    (s : State) (plaintext : bytes) :
  (forall i, stop_request1 i = false) ->
  (forall i, stop_request2 i = false) ->
  _stop_flag (self s) = false ->
  files s !! plain = Some plaintext ->
  plain <> cipher ->
  cipher <> restored ->
  exists s1 s2 : State,
    encrypt_file stop_request1 plain cipher (public_key_of sk) s = (Normal tt, s1)
    /\ decrypt_file stop_request2 cipher restored sk s1 = (Normal tt, s2)
    /\ files s2 !! restored = Some plaintext.
Proof using Hmodulus Hcorrect.
  intros Hnever1 Hnever2 Hflag Hin Hpc Hcr.
  set (todo := chunks Size.ENCRYPTION_CHUNK plaintext).
  set (blocks := imap (fun k c => oaep_encrypt (public_key_of sk) k c) todo).
  assert (Forall (fun c => length c <= Size.ENCRYPTION_CHUNK) todo) as Hbound
    by apply chunks_bounded.
  assert (length todo = length blocks) as Hlen by (unfold blocks; by rewrite length_imap).
  (* encryption *)
  rewrite encrypt_file_unfold.
  set (s0 := mkState _ (files s) _ _).
  rewrite (process_file_session _ _ _ _ _ s0 plaintext Hin). cbn zeta.
  unfold visible. rewrite decide_False by done. fold todo.
  change (_stop_flag (self s0)) with (_stop_flag (self s)). rewrite Hflag.
  rewrite (session_all stop_request1 _ Hnever1 todo blocks 0 Hlen); cycle 1.
  { intros k c p Hc Hp. unfold blocks in Hp. rewrite list_lookup_imap, Hc in Hp.
    simpl in Hp. simplify_eq. apply encrypt_chunk_ok.
    eapply Forall_lookup_1 in Hbound; eauto. }
  set (s1 := finish _ _ _). exists s1.
  assert (files s1 !! cipher = Some (concat blocks)) as Hcipher.
  { unfold s1. simpl. rewrite snd_zip by lia.
    rewrite (foldl_append_file_lookup cipher _ _ []); [done|]. apply lookup_insert_eq. }
  (* decryption *)
  rewrite decrypt_file_unfold.
  set (s1' := mkState _ (files s1) _ _).
  rewrite (process_file_session _ _ _ _ _ s1' (concat blocks) Hcipher). cbn zeta.
  unfold visible. rewrite decide_False by done.
  assert (chunks Size.DECRYPTION_CHUNK (concat blocks) = blocks) as ->.
  { apply chunks_concat; [unfold Size.DECRYPTION_CHUNK; lia|].
    apply Forall_forall. intros b Hb. unfold blocks in Hb.
    apply list_elem_of_lookup in Hb as [k Hk].
    rewrite list_lookup_imap in Hk.
    destruct (todo !! k) as [c|] eqn:Hc; [|done]. simpl in Hk. simplify_eq.
    rewrite <- Hmodulus. apply Hcorrect. rewrite capacity_is_encryption_chunk.
    eapply Forall_lookup_1 in Hbound; eauto. }
  change (_stop_flag (self s1')) with false.
  rewrite (session_all stop_request2 _ Hnever2 blocks todo 0 (eq_sym Hlen)); cycle 1.
  { intros k b c Hb Hc. unfold blocks in Hb. rewrite list_lookup_imap, Hc in Hb.
    simpl in Hb. simplify_eq. apply decrypt_chunk_ok.
    eapply Forall_lookup_1 in Hbound; eauto. }
  eexists. split; [reflexivity|]. split; [reflexivity|].
  simpl.
  rewrite (foldl_append_file_lookup restored _ _ []); [|apply lookup_insert_eq].
  rewrite (snd_zip blocks todo) by lia.
  simpl. f_equal. apply concat_chunks. unfold Size.ENCRYPTION_CHUNK. lia.
Qed.

End RoundTrip.

(** ** The theorems at concrete inputs *)

(** A 2048-bit key pair and a file of 300 bytes: the first chunk exceeds
    the capacity of the key, encryption reports the error and leaves an
    empty ciphertext file, which decrypts to an empty file. *)
Lemma roundtrip_fails_for_2048_bit_key :
  let plaintext := replicate 300 x41 in
  let s := with_file "plain.bin" plaintext empty_state in
  let s1 := (FileManager.encrypt_file (H := toy_oaep) never "plain.bin" "cipher.bin"
               (public_key_of small_key) s).2 in
  let s2 := (FileManager.decrypt_file (H := toy_oaep) never "cipher.bin" "restored.bin"
               small_key s1).2 in
  @oaep_correct toy_oaep small_key
  /\ FileManager.emitted s1 = [FileManager.critical_error "plain.bin" "plaintext too long"]
  /\ FileManager.files s2 !! "restored.bin" = Some []
  /\ FileManager.files s2 !! "restored.bin" <> Some plaintext.
Proof.
  split; [apply toy_oaep_correct; vm_compute; lia|].
  split; [vm_compute; reflexivity|].
  split; [vm_compute; reflexivity|].
  vm_compute. discriminate.
Qed.

Lemma encrypt_then_decrypt_restores_witness :
  let s := with_file "plain.bin" [x01; x02; x03] empty_state in
  exists s1 s2 : FileManager.State,
    FileManager.encrypt_file (H := toy_oaep) never "plain.bin" "cipher.bin"
      (public_key_of toy_key) s = (Normal tt, s1)
    /\ FileManager.decrypt_file (H := toy_oaep) never "cipher.bin" "restored.bin"
         toy_key s1 = (Normal tt, s2)
    /\ FileManager.files s2 !! "restored.bin" = Some [x01; x02; x03].
Proof.
  apply (encrypt_then_decrypt_restores (H := toy_oaep) toy_key).
  - apply toy_oaep_correct. vm_compute. lia.
  - reflexivity.
  - reflexivity.
  - reflexivity.
  - reflexivity.
  - reflexivity.
  - discriminate.
  - discriminate.
Defined.

Lemma completed_output_is_concatenation_witness :
  let content := [x01; x02; x03; x04; x05] in
  let s := with_file "in.bin" content empty_state in
  let s' := (FileManager._process_file never "in.bin" "out.bin" toy_handler 2 s).2 in
  exists outs : list bytes,
    FileManager.files s' !! "out.bin" = Some (concat outs)
    /\ length outs = length (chunks 2 (visible "in.bin" "out.bin" content))
    /\ forall k c p,
         chunks 2 (visible "in.bin" "out.bin" content) !! k = Some c ->
         outs !! k = Some p ->
         toy_handler k c = inr p.
Proof.
  intros content s s'.
  apply (completed_output_is_concatenation never toy_handler 2 "in.bin" "out.bin" s s'
           content
           [FileManager.update_processed_bytes 2; FileManager.update_processed_bytes 2;
            FileManager.update_processed_bytes 1; FileManager.operation_completed]).
  - reflexivity.
  - reflexivity.
  - reflexivity.
  - repeat constructor.
Defined.

Lemma stop_flag_halts_session_witness :
  let content := [x01; x02; x03; x04; x05] in
  let s := with_file "in.bin" content empty_state in
  exists (s' : FileManager.State) (done : list (bytes * bytes)),
    FileManager._process_file (stop_at 1) "in.bin" "out.bin" toy_handler 2 s = (Normal tt, s')
    /\ done.*1 = take 1 (chunks 2 (visible "in.bin" "out.bin" content))
    /\ (forall k c p, done !! k = Some (c, p) -> toy_handler k c = inr p)
    /\ FileManager.io_log s' =
       FileManager.io_log s
       ++ [FileManager.Opened "in.bin" "rb"; FileManager.Opened "out.bin" "wb"]
       ++ flat_map (fun cp => [FileManager.Read "in.bin" cp.1;
                               FileManager.Written "out.bin" cp.2]) done
       ++ [FileManager.Console "Process stopped by user."]
    /\ FileManager.emitted s' = FileManager.emitted s ++ progress_of done
    /\ Forall (fun sig => is_terminal sig = false) (progress_of done)
    /\ FileManager.files s' !! "out.bin" = Some (concat done.*2)
    /\ FileManager._stop_flag (FileManager.self s') = true.
Proof.
  intros content s.
  apply (stop_flag_halts_session (stop_at 1) toy_handler 2 "in.bin" "out.bin" s content 1).
  - reflexivity.
  - intros k Hk. assert (k = 0) as -> by lia. reflexivity.
  - reflexivity.
  - vm_compute. lia.
  - intros k c Hk Hc. eexists. reflexivity.
Defined.

(** ** The key manager *)

Lemma toy_codec_faithful : @pem_faithful toy_codec toy_key.
Proof. intros [|password] salt; reflexivity. Qed.

Section KeyManager.
Import RsaKeyManager.
Context `{PemCodec} `{Rsa}.

(** The library raises [ValueError] or [TypeError], nothing else. *)
Lemma load_pem_private_key_raises (data : bytes) (password : option bytes) (e : PyExn) :
  load_pem_private_key data password = inl e ->
  exists msg, e = ValueError msg \/ e = TypeError msg.
Proof.
  unfold load_pem_private_key. intros He.
  destruct (pem_private data) as [[k [p|]]|]; [destruct password as [p'|]..|].
  - destruct (decide (p = p')); simplify_eq; eauto.
  - simplify_eq; eauto.
  - simplify_eq; eauto.
  - simplify_eq.
  - simplify_eq; eauto.
Qed.


Lemma wrapped_is_FormatError (before detail : string) :
  is_FormatError
    (Exception ((before ++ "and try again.") ++ newline ++ newline ++ "Additional Info:"
                ++ newline ++ " " ++ detail)%string).
Proof. simpl. exists (before ++ "and try again.")%string, detail. eauto. Qed.


End KeyManager.

Section SavingKeys.
Import RsaKeyManager.
Context `{PemCodec} `{Rsa}.

(** The encryption chosen for a passphrase. *)
Lemma encryption_for_spec (password : option string) :
  encryption_for password =
  match password with
  | None => NoEncryption
  | Some p => if decide (p = "") then NoEncryption else BestAvailableEncryption (encode p)
  end.
Proof. destruct password as [[|c rest]|]; reflexivity. Qed.

(** C2, as amended.  A call of [save_private_key_to_file] that returns
    has written the PEM container of the key, the one given or the one
    generated, serialized without encryption exactly when no passphrase or
    the empty passphrase was given, and under password-based encryption with
    the encoded passphrase when a non-empty one was given; when the library
    serializes the key faithfully, the file decodes to the key protected by
    that passphrase, or by none. *)
Theorem save_private_key_protection
    (entropy salt : nat) (output_pem_file_path : string) (password : option string)
    (private_key : option RSAPrivateKey) (fs fs' : gmap string bytes) :
  save_private_key_to_file entropy salt output_pem_file_path password private_key fs
  = inr fs' ->
  exists (key : RSAPrivateKey) (encryption : KeySerializationEncryption),
    (private_key = Some key
     \/ private_key = None
        /\ rsa_generate_private_key PUBLIC_EXPONENT KEY_SIZE entropy = inr key)
    /\ encryption =
       match password with
       | None => NoEncryption
       | Some p => if decide (p = "") then NoEncryption else BestAvailableEncryption (encode p)
       end
    /\ fs' !! output_pem_file_path = Some (private_bytes key encryption salt)
    /\ (pem_faithful key ->
        pem_private <$> fs' !! output_pem_file_path = Some (Some (key, protection encryption))).
Proof.
  unfold save_private_key_to_file. intros Hsave.
  assert (exists key,
             (private_key = Some key
              \/ private_key = None
                 /\ rsa_generate_private_key PUBLIC_EXPONENT KEY_SIZE entropy = inr key)
             /\ fs' = <[output_pem_file_path :=
                          private_bytes key (encryption_for password) salt]>
                        (<[output_pem_file_path := []]> fs)) as (key & Hkey & ->).
  { destruct private_key as [k|].
    - simplify_eq. eauto.
    - destruct (rsa_generate_private_key PUBLIC_EXPONENT KEY_SIZE entropy) as [e|k];
        simplify_eq. eauto. }
  exists key, (encryption_for password).
  split; [exact Hkey|]. split; [apply encryption_for_spec|].
  rewrite lookup_insert_eq. split; [done|].
  intros Hfaithful. unfold pem_faithful in Hfaithful. simpl. by rewrite Hfaithful.
Qed.

(** C10. Without a key, [save_private_key_to_file] does not fail when the
    library accepts the configured exponent and key size: it generates the
    key that [generate_private_key] would, and behaves as if that key had
    been passed, so the PEM container of the new key is what the file
    holds. *)
Theorem save_private_key_generates_missing_key
    (entropy salt : nat) (output_pem_file_path : string) (password : option string)
    (fs : gmap string bytes) (key : RSAPrivateKey) :
  rsa_generate_private_key PUBLIC_EXPONENT KEY_SIZE entropy = inr key ->
  generate_private_key entropy = inr key
  /\ save_private_key_to_file entropy salt output_pem_file_path password None fs
     = save_private_key_to_file entropy salt output_pem_file_path password (Some key) fs
  /\ exists fs' : gmap string bytes,
       save_private_key_to_file entropy salt output_pem_file_path password None fs = inr fs'
       /\ fs' !! output_pem_file_path
          = Some (private_bytes key (encryption_for password) salt)
       /\ forall path, path <> output_pem_file_path -> fs' !! path = fs !! path.
Proof.
  intros Hgen. unfold generate_private_key, save_private_key_to_file. rewrite Hgen.
  split; [done|]. split; [done|].
  eexists. split; [reflexivity|]. split; [apply lookup_insert_eq|].
  intros path Hne. by rewrite !lookup_insert_ne.
Qed.

(** X11. Saving under a passphrase, then loading: the key comes back with the
    same passphrase, the advice with any other. *)
Lemma save_then_load (entropy salt : nat) (path : string) (secret other : string)
    (key : RSAPrivateKey) (fs fs' : gmap string bytes) :
  pem_faithful key ->
  secret <> "" ->
  encode other <> encode secret ->
  save_private_key_to_file entropy salt path (Some secret) (Some key) fs = inr fs' ->
  load_private_key_from_file path (Some secret) fs' = inr key
  /\ exists e, load_private_key_from_file path (Some other) fs' = inl e /\ is_FormatError e.
Proof.
  intros Hfaithful Hsecret Hother Hsave.
  unfold save_private_key_to_file in Hsave. simplify_eq.
  unfold load_private_key_from_file. rewrite !lookup_insert_eq.
  unfold load_pem_private_key. unfold pem_faithful in Hfaithful. rewrite Hfaithful.
  destruct secret as [|c rest]; [done|]. cbv [encryption_for protection].
  cbn [fmap option_fmap option_map].
  rewrite decide_True by done. split; [done|].
  rewrite decide_False by done.
  eexists. split; [reflexivity|].
  apply (wrapped_is_FormatError "Failed to process private key. Please check file format ").
Qed.

(** [serialize_private_key] hands on whatever the library raises. *)
Lemma serialize_private_key_raises (private_key : string) (password : option string)
    (e : PyExn) :
  serialize_private_key private_key password = inl e ->
  (exists msg, e = ValueError msg \/ e = TypeError msg) /\ ~ is_FormatError e.
Proof.
  unfold serialize_private_key. intros He.
  destruct (load_pem_private_key_raises _ _ _ He) as (msg & [-> | ->]);
    (split; [eauto|simpl; tauto]).
Qed.

(** [serialize_public_key] wraps it. *)
Lemma serialize_public_key_raises (public_key : string) (e : PyExn) :
  serialize_public_key public_key = inl e -> is_FormatError e.
Proof.
  unfold serialize_public_key. intros He.
  destruct (load_pem_public_key (encode public_key)) as [e'|k]; simplify_eq.
  apply (wrapped_is_FormatError
           ("Failed to serialize public key, most likely key was corrupted, or you made a mistake, when provided the key."
            ++ newline ++ "Please check your input, ")%string).
Qed.

End SavingKeys.

(** An empty passphrase: the key is written without encryption. *)
Lemma empty_passphrase_is_saved_unencrypted :
  exists fs' : gmap string bytes,
    RsaKeyManager.save_private_key_to_file (H := toy_codec) (H0 := rsa_4096)
      0 0 "key.pem" (Some "") (Some toy_key) ∅ = inr fs'
    /\ fs' !! "key.pem" = Some (@private_bytes toy_codec toy_key NoEncryption 0)
    /\ @pem_private toy_codec <$> fs' !! "key.pem" = Some (Some (toy_key, None)).
Proof. eexists. split; [reflexivity|]. split; reflexivity. Qed.

Lemma save_private_key_protection_witness :
  let fs' := <["key.pem" := [x02; x73]]> (<["key.pem" := []]> (∅ : gmap string bytes)) in
  exists (key : RSAPrivateKey) (encryption : KeySerializationEncryption),
    (Some toy_key = Some key
     \/ Some toy_key = None
        /\ @rsa_generate_private_key toy_codec (@PUBLIC_EXPONENT rsa_4096)
             (@KEY_SIZE rsa_4096) 0 = inr key)
    /\ encryption =
       match Some "s" with
       | None => NoEncryption
       | Some p =>
           if decide (p = "") then NoEncryption
           else BestAvailableEncryption (RsaKeyManager.encode p)
       end
    /\ fs' !! "key.pem" = Some (@private_bytes toy_codec key encryption 0)
    /\ (@pem_faithful toy_codec key ->
        @pem_private toy_codec <$> fs' !! "key.pem"
        = Some (Some (key, protection encryption))).
Proof.
  intros fs'.
  apply (save_private_key_protection (H := toy_codec) (H0 := rsa_4096)
           0 0 "key.pem" (Some "s") (Some toy_key) ∅ fs').
  reflexivity.
Defined.

Lemma save_private_key_generates_missing_key_witness :
  let key := mkPrivateKey 4096 5 in
  @RsaKeyManager.generate_private_key toy_codec rsa_4096 5 = inr key
  /\ RsaKeyManager.save_private_key_to_file (H := toy_codec) (H0 := rsa_4096)
       5 0 "key.pem" None None ∅
     = RsaKeyManager.save_private_key_to_file (H := toy_codec) (H0 := rsa_4096)
         5 0 "key.pem" None (Some key) ∅
  /\ exists fs' : gmap string bytes,
       RsaKeyManager.save_private_key_to_file (H := toy_codec) (H0 := rsa_4096)
         5 0 "key.pem" None None ∅ = inr fs'
       /\ fs' !! "key.pem"
          = Some (@private_bytes toy_codec key
                    (RsaKeyManager.encryption_for None) 0)
       /\ forall path, path <> "key.pem" -> fs' !! path = (∅ : gmap string bytes) !! path.
Proof.
  intros key.
  apply (save_private_key_generates_missing_key (H := toy_codec) (H0 := rsa_4096)
           5 0 "key.pem" None ∅ key).
  vm_compute. reflexivity.
Defined.

(** C7. Text that is not a private key in PEM: [serialize_private_key]
    raises the [ValueError] of the library as it is, without the advice;
    [load_private_key_from_file] on a file with the same bytes, and
    [serialize_public_key] on the same text, raise the [Exception] that
    carries the advice. *)
Theorem serialize_private_key_raises_library_error :
  let text := "not a key" in
  let fs : gmap string bytes := {["key.pem" := RsaKeyManager.encode text]} in
  @RsaKeyManager.serialize_private_key toy_codec text None
  = inl (ValueError "Could not deserialize key data.")
  /\ ~ RsaKeyManager.is_FormatError (ValueError "Could not deserialize key data.")
  /\ (exists e, @RsaKeyManager.load_private_key_from_file toy_codec "key.pem" None fs = inl e
                /\ RsaKeyManager.is_FormatError e)
  /\ (exists e, @RsaKeyManager.serialize_public_key toy_codec text = inl e
                /\ RsaKeyManager.is_FormatError e).
Proof.
  intros text fs. split; [reflexivity|]. split; [simpl; tauto|]. split.
  - eexists. split; [reflexivity|].
    apply (wrapped_is_FormatError "Failed to process private key. Please check file format ").
  - eexists. split; [reflexivity|].
    apply (serialize_public_key_raises (H := toy_codec) text). reflexivity.
Qed.

(** * Further properties of the processing loop *)

(** The handler raises on chunk [j], reached without a stop request. *)
Lemma session_failed_at stop_request chunk_handler :
  forall (j : nat) (todo : list bytes) (flag : bool) (i : nat) (chunk : bytes) (e : PyExn),
    (forall k, k <= j -> flag || stop_request (i + k) = false) ->
    (forall k c, k < j -> todo !! k = Some c -> exists p, chunk_handler (i + k) c = inr p) ->
    todo !! j = Some chunk ->
    chunk_handler (i + j) chunk = inl e ->
    exists done,
      session stop_request chunk_handler flag i todo = (done, Failed chunk e)
      /\ done.*1 = take j todo.
Proof.
  induction j as [|j IH]; intros todo flag i chunk e Hstop Hok Hj He.
  - destruct todo as [|c todo]; [done|]. simpl in Hj. simplify_eq.
    pose proof (Hstop 0 ltac:(lia)) as H0. rewrite Nat.add_0_r in H0, He.
    rewrite session_cons by done. rewrite He. by exists [].
  - destruct todo as [|c todo]; [done|]. simpl in Hj.
    pose proof (Hstop 0 ltac:(lia)) as H0. rewrite Nat.add_0_r in H0.
    apply orb_false_iff in H0 as Hflag. destruct Hflag as [-> _].
    rewrite session_cons by done.
    destruct (Hok 0 c ltac:(lia) eq_refl) as [p Hp]. rewrite Nat.add_0_r in Hp.
    rewrite Hp.
    destruct (IH todo false (S i) chunk e) as (done & Hs & Hd).
    + intros k Hk. replace (S i + k) with (i + S k) by lia. apply Hstop. lia.
    + intros k c' Hk Hc. replace (S i + k) with (i + S k) by lia.
      apply Hok; [lia|done].
    + done.
    + by replace (S i + j) with (i + S j) by lia.
    + exists ((c, p) :: done). rewrite Hs. split; [done|]. simpl. by f_equal.
Qed.

(** A session is cancelled only by the flag or by a request. *)
Lemma session_cancelled_cause stop_request chunk_handler :
  forall (todo : list bytes) (flag : bool) (i : nat),
    (session stop_request chunk_handler flag i todo).2 = Cancelled ->
    flag = true \/ exists k, stop_request k = true.
Proof.
  induction todo as [|c todo IH]; intros flag i Hc.
  - destruct (flag || stop_request i) eqn:E.
    + apply orb_true_iff in E as [?|?]; eauto.
    + by rewrite session_nil in Hc.
  - destruct (flag || stop_request i) eqn:E.
    { apply orb_true_iff in E as [?|?]; eauto. }
    rewrite session_cons in Hc by done.
    destruct (chunk_handler i c); [done|]. simpl in Hc.
    destruct (IH false (S i) Hc) as [?|?]; [done|by right].
Qed.

(** Every slice but the last is full. *)
Lemma chunks_full_but_last (n : nat) (data : bytes) (k : nat) (c : bytes) :
  chunks n data !! k = Some c ->
  S k < length (chunks n data) ->
  length c = n.
Proof.
  remember (length data) as m eqn:Hm.
  revert data Hm k c. induction m as [m IH] using lt_wf_ind. intros data Hm k c Hk Hlast.
  destruct (take n data) as [|b chunk] eqn:E.
  { rewrite chunks_empty_read in Hk by done. done. }
  assert (n <> 0) as Hn by (intros ->; by rewrite take_0 in E).
  assert (data <> []) as Hd by (intros ->; by rewrite take_nil in E).
  rewrite chunks_step in Hk, Hlast by (by rewrite E).
  destruct k as [|k]; simpl in Hk, Hlast.
  - simplify_eq.
    destruct (chunks n (drop n data)) as [|c' rest] eqn:Ec; [simpl in Hlast; lia|].
    assert (drop n data <> []) as Hdrop by (intros Heq; by rewrite Heq in Ec).
    rewrite length_take. apply Nat.min_l.
    destruct (decide (n <= length data)); [done|].
    rewrite drop_ge in Hdrop by lia. done.
  - apply (IH (length (drop n data))) with (data := drop n data) (k := k); [|done|done|lia].
    rewrite length_drop. destruct data; [done|]. simpl in *. lia.
Qed.

(** The number of slices. *)
Lemma chunks_length (n : nat) (data : bytes) :
  0 < n -> length (chunks n data) = (length data + n - 1) / n.
Proof.
  intros Hn. remember (length data) as m eqn:Hm.
  revert data Hm. induction m as [m IH] using lt_wf_ind. intros data Hm.
  destruct data as [|b data].
  - simpl in Hm. subst m. rewrite chunks_nil. simpl.
    symmetry. apply Nat.div_small. lia.
  - rewrite chunks_step by (destruct n; [lia|done]).
    simpl length at 1.
    rewrite (IH (length (drop n (b :: data)))) with (data := drop n (b :: data));
      [|rewrite length_drop; simpl in *; lia|done].
    rewrite length_drop. rewrite <- Hm.
    destruct (decide (n <= m)).
    + replace (m + n - 1) with ((m - n + n - 1) + 1 * n) by lia.
      rewrite Nat.div_add by lia. lia.
    + replace (m - n + n - 1) with (n - 1) by lia.
      rewrite (Nat.div_small (n - 1) n) by lia.
      apply (Nat.div_unique _ _ 1 (m - 1)); simpl in *; lia.
Qed.

Lemma sum_lengths_concat (l : list bytes) : sum_list (map length l) = length (concat l).
Proof.
  induction l as [|x l IH]; [done|]. simpl. rewrite length_app. by rewrite IH.
Qed.

Lemma sum_lengths_take (k : nat) (l : list bytes) :
  sum_list (map length (take k l)) <= sum_list (map length l).
Proof.
  rewrite <- (take_drop k l) at 2. rewrite map_app, sum_list_with_app. lia.
Qed.

Lemma length_concat_uniform (m : nat) (l : list bytes) :
  Forall (fun p => length p = m) l -> length (concat l) = m * length l.
Proof.
  induction 1 as [|p l Hp _ IH]; simpl; [lia|]. rewrite length_app, IH, Hp. lia.
Qed.

Section MoreAboutRuns.
Import FileManager.

Implicit Types (stop_request : nat -> bool) (chunk_handler : nat -> bytes -> PyExn + bytes).
Implicit Types (chunk_size : nat) (input output : string) (s : State).

(** The progress counts of a run are the lengths of the chunks of its
    session. *)
Lemma process_file_deltas stop_request chunk_handler chunk_size input output s
    (content : bytes) (log : list Signal) :
  files s !! input = Some content ->
  emitted (_process_file stop_request input output chunk_handler chunk_size s).2
  = emitted s ++ log ->
  exists done fin,
    session stop_request chunk_handler (_stop_flag (self s)) 0
      (chunks chunk_size (visible input output content)) = (done, fin)
    /\ log = progress_of done
             ++ match fin with
                | Completed => [operation_completed]
                | Cancelled => []
                | Failed _ e => [critical_error input (str e)]
                end
    /\ deltas log = map length done.*1.
Proof.
  intros Hin Hlog.
  destruct (session stop_request chunk_handler (_stop_flag (self s)) 0
              (chunks chunk_size (visible input output content))) as [done fin] eqn:Hs.
  pose proof (process_file_emitted _ _ _ _ _ _ _ _ _ Hin Hs) as Hem.
  rewrite Hlog in Hem. apply app_inv_head in Hem. subst log.
  exists done, fin. split; [done|]. split; [done|].
  unfold deltas. rewrite omap_app. fold (deltas (progress_of done)).
  rewrite deltas_progress_of.
  replace (omap _ _) with (@nil nat) by (by destruct fin).
  by rewrite app_nil_r.
Qed.

(** A run that emits [operation_completed] has processed every slice. *)
Lemma completed_session stop_request chunk_handler chunk_size input output s
    (content : bytes) (log : list Signal) :
  files s !! input = Some content ->
  emitted (_process_file stop_request input output chunk_handler chunk_size s).2
  = emitted s ++ log ->
  operation_completed ∈ log ->
  exists done,
    session stop_request chunk_handler (_stop_flag (self s)) 0
      (chunks chunk_size (visible input output content)) = (done, Completed)
    /\ done.*1 = chunks chunk_size (visible input output content)
    /\ (forall k c p, done !! k = Some (c, p) -> chunk_handler k c = inr p)
    /\ files (_process_file stop_request input output chunk_handler chunk_size s).2
         !! output = Some (concat done.*2).
Proof.
  intros Hin Hlog Hcompleted.
  destruct (process_file_deltas _ _ _ _ _ _ _ _ Hin Hlog) as (done & fin & Hs & -> & _).
  assert (fin = Completed) as ->.
  { apply elem_of_app in Hcompleted as [Hc|Hc].
    - by apply elem_of_progress_of in Hc.
    - destruct fin as [| |c e]; [done|by apply elem_of_nil in Hc|].
      by apply list_elem_of_singleton in Hc. }
  destruct (session_done _ _ _ _ _ _ _ Hs) as (Hd & Hh & Hlen).
  rewrite Hlen, firstn_all in Hd.
  exists done. split; [done|]. split; [done|]. split; [exact Hh|].
  rewrite (process_file_session _ _ _ _ _ _ content Hin). cbn zeta. rewrite Hs. simpl.
  rewrite (foldl_append_file_lookup output _ _ []); [done|]. apply lookup_insert_eq.
Qed.

(** X1. When the chunk handler raises on chunk [j], reached without a
    stop request, the run reports the error with the message of the
    exception after the progress of the [j] chunks before it, and the output
    file keeps their results: nothing is rolled back. *)
Theorem handler_failure_keeps_partial_output
    stop_request chunk_handler chunk_size input output s
    (content : bytes) (j : nat) (chunk : bytes) (e : PyExn) :
  files s !! input = Some content ->
  (forall k, k <= j -> _stop_flag (self s) || stop_request k = false) ->
  (forall k c, k < j ->
     chunks chunk_size (visible input output content) !! k = Some c ->
     exists p, chunk_handler k c = inr p) ->
  chunks chunk_size (visible input output content) !! j = Some chunk ->
  chunk_handler j chunk = inl e ->
  exists (s' : State) (done : list (bytes * bytes)),
    _process_file stop_request input output chunk_handler chunk_size s = (Normal tt, s')
    /\ done.*1 = take j (chunks chunk_size (visible input output content))
    /\ (forall k c p, done !! k = Some (c, p) -> chunk_handler k c = inr p)
    /\ emitted s' = emitted s ++ progress_of done ++ [critical_error input (str e)]
    /\ files s' !! output = Some (concat done.*2)
    /\ _stop_flag (self s') = false.
Proof.
  intros Hin Hstop Hok Hj He.
  destruct (session_failed_at stop_request chunk_handler j
              (chunks chunk_size (visible input output content))
              (_stop_flag (self s)) 0 chunk e) as (done & Hs & Hd);
    [exact Hstop|exact Hok|exact Hj|exact He|].
  pose proof (process_file_emitted _ _ _ _ _ _ _ _ _ Hin Hs) as Hem.
  destruct (session_done _ _ _ _ _ _ _ Hs) as (_ & Hh & _).
  rewrite (process_file_session _ _ _ _ _ _ content Hin) in *.
  cbn zeta in *. rewrite Hs in *.
  eexists _, done. split; [reflexivity|]. split; [exact Hd|]. split; [exact Hh|].
  split; [exact Hem|]. split; [|done].
  simpl. rewrite (foldl_append_file_lookup output _ _ []); [done|].
  apply lookup_insert_eq.
Qed.

(** X3. Whatever happens in a run, no file but the output file changes. *)
Theorem run_modifies_only_output
    stop_request chunk_handler chunk_size input output s (path : string) :
  path <> output ->
  files (_process_file stop_request input output chunk_handler chunk_size s).2 !! path
  = files s !! path.
Proof.
  intros Hne. destruct (files s !! input) as [content|] eqn:Hin.
  - rewrite (process_file_session _ _ _ _ _ _ content Hin). cbn zeta.
    destruct (session _ _ _ _ _) as [done fin].
    assert (files (after_session input output (opened input output s) done fin) !! path
            = files s !! path) as Hframe.
    { simpl. rewrite foldl_append_file_other by done. by rewrite lookup_insert_ne. }
    by destruct fin.
  - by rewrite process_file_missing.
Qed.

(** X4. The byte counts of the progress notifications of a run never add
    up to more than the input holds, and for a run that completes, with a
    positive chunk size, they add up to exactly the length of the input. *)
Theorem progress_sums_to_input_length
    stop_request chunk_handler chunk_size input output s
    (content : bytes) (log : list Signal) :
  files s !! input = Some content ->
  emitted (_process_file stop_request input output chunk_handler chunk_size s).2
  = emitted s ++ log ->
  sum_list (deltas log) <= length (visible input output content)
  /\ (0 < chunk_size -> operation_completed ∈ log ->
      sum_list (deltas log) = length (visible input output content)).
Proof.
  intros Hin Hlog.
  destruct (process_file_deltas _ _ _ _ _ _ _ _ Hin Hlog) as (done & fin & Hs & _ & Hdeltas).
  destruct (session_done _ _ _ _ _ _ _ Hs) as (Hd & _ & _).
  set (data := visible input output content) in *.
  assert (sum_list (map length (chunks chunk_size data)) <= length data) as Hall.
  { rewrite sum_lengths_concat. destruct chunk_size as [|n].
    - rewrite chunks_zero. simpl. lia.
    - by rewrite concat_chunks by lia. }
  split.
  - rewrite Hdeltas, Hd. etrans; [apply sum_lengths_take|exact Hall].
  - intros Hpos Hcompleted.
    destruct (completed_session _ _ _ _ _ _ _ _ Hin Hlog Hcompleted)
      as (done' & Hs' & Hd' & _).
    unfold data in *. rewrite Hs in Hs'. simplify_eq.
    rewrite Hdeltas, Hd', sum_lengths_concat. by rewrite concat_chunks.
Qed.

(** X5. Every progress notification of a run carries at least one byte
    and at most [chunk_size], and every one but that of the last slice of
    the input carries exactly [chunk_size]. *)
Theorem progress_counts_are_chunk_sized
    stop_request chunk_handler chunk_size input output s
    (content : bytes) (log : list Signal) (k d : nat) :
  files s !! input = Some content ->
  emitted (_process_file stop_request input output chunk_handler chunk_size s).2
  = emitted s ++ log ->
  deltas log !! k = Some d ->
  0 < d <= chunk_size
  /\ (S k < length (chunks chunk_size (visible input output content)) -> d = chunk_size).
Proof.
  intros Hin Hlog Hk.
  destruct (process_file_deltas _ _ _ _ _ _ _ _ Hin Hlog) as (done & fin & Hs & _ & Hdeltas).
  destruct (session_done _ _ _ _ _ _ _ Hs) as (Hd & _ & _).
  rewrite Hdeltas, Hd in Hk. apply list_lookup_fmap_Some in Hk as (c & -> & Hc).
  apply lookup_take_Some in Hc as [Hc _].
  pose proof (chunks_nonempty chunk_size (visible input output content)) as Hpos.
  pose proof (chunks_bounded chunk_size (visible input output content)) as Hbound.
  eapply Forall_lookup_1 in Hpos; [|exact Hc].
  eapply Forall_lookup_1 in Hbound; [|exact Hc].
  split; [simpl in *; lia|].
  intros Hlast. by eapply chunks_full_but_last.
Qed.

(** X6. When every result of the chunk handler has [m] bytes, the output
    file of a run that completes has [m] bytes for every slice of the input:
    [m] times the length of the input divided by the chunk size, rounded
    up. *)
Theorem completed_output_length
    stop_request chunk_handler chunk_size input output s
    (content : bytes) (log : list Signal) (m : nat) :
  0 < chunk_size ->
  files s !! input = Some content ->
  emitted (_process_file stop_request input output chunk_handler chunk_size s).2
  = emitted s ++ log ->
  operation_completed ∈ log ->
  (forall i c p, chunk_handler i c = inr p -> length p = m) ->
  exists out : bytes,
    files (_process_file stop_request input output chunk_handler chunk_size s).2 !! output
    = Some out
    /\ length out
       = m * ((length (visible input output content) + chunk_size - 1) / chunk_size).
Proof.
  intros Hpos Hin Hlog Hcompleted Hm.
  destruct (completed_session _ _ _ _ _ _ _ _ Hin Hlog Hcompleted)
    as (done & _ & Hd & Hh & Hout).
  exists (concat done.*2). split; [exact Hout|].
  rewrite (length_concat_uniform m).
  - rewrite length_fmap, <- (length_fmap fst done), Hd. by rewrite chunks_length.
  - apply Forall_forall. intros p Hp.
    apply list_elem_of_lookup in Hp as [k Hk].
    apply list_lookup_fmap_Some in Hk as ([c p'] & -> & Hk).
    eapply Hm, Hh, Hk.
Qed.

(** X7. A run never clears the stop flag and never touches the cipher the
    manager holds; the flag is set after a run only if it was set before or
    a stop request arrived. *)
Theorem stop_flag_only_rises
    stop_request chunk_handler chunk_size input output s :
  chunk_encrypter
    (self (_process_file stop_request input output chunk_handler chunk_size s).2)
  = chunk_encrypter (self s)
  /\ (_stop_flag (self s) = true ->
      _stop_flag
        (self (_process_file stop_request input output chunk_handler chunk_size s).2)
      = true)
  /\ (_stop_flag
        (self (_process_file stop_request input output chunk_handler chunk_size s).2)
      = true ->
      _stop_flag (self s) = true \/ exists k, stop_request k = true).
Proof.
  destruct (files s !! input) as [content|] eqn:Hin.
  - rewrite (process_file_session _ _ _ _ _ _ content Hin). cbn zeta.
    destruct (session stop_request chunk_handler (_stop_flag (self s)) 0
                (chunks chunk_size (visible input output content))) as [done fin] eqn:Hs.
    split; [by destruct fin|]. split.
    + intros Hflag. rewrite session_cancel in Hs by (by rewrite Hflag). by simplify_eq.
    + intros Hset.
      apply (session_cancelled_cause stop_request chunk_handler
               (chunks chunk_size (visible input output content)) _ 0).
      rewrite Hs. by destruct fin.
  - rewrite process_file_missing by done. simpl. auto.
Qed.

(** X8. When the first read is empty, because the input is empty or the
    chunk size is zero, a run that is not stopped completes at once: it
    calls the chunk handler on nothing, leaves an empty output file and
    emits [operation_completed] alone. *)
Theorem empty_first_read_completes
    stop_request chunk_handler chunk_size input output s (content : bytes) :
  files s !! input = Some content ->
  chunk_size = 0 \/ content = [] ->
  _stop_flag (self s) || stop_request 0 = false ->
  exists s' : State,
    _process_file stop_request input output chunk_handler chunk_size s = (Normal tt, s')
    /\ emitted s' = emitted s ++ [operation_completed]
    /\ files s' !! output = Some []
    /\ io_log s' = io_log s ++ [Opened input "rb"; Opened output "wb"; Read input []].
Proof.
  intros Hin Hempty Hstop.
  rewrite (process_file_session _ _ _ _ _ _ content Hin). cbn zeta.
  assert (chunks chunk_size (visible input output content) = []) as ->.
  { destruct Hempty as [-> | ->]; [apply chunks_zero|].
    unfold visible. by destruct (decide _). }
  rewrite session_nil by done.
  eexists. split; [reflexivity|]. simpl. rewrite app_nil_r.
  split; [done|]. split; [apply lookup_insert_eq|].
  unfold session_io. simpl. by rewrite <- !app_assoc.
Qed.

End MoreAboutRuns.

Section MoreAboutEntryPoints.
Import FileManager.
Context `{RsaOaep}.


End MoreAboutEntryPoints.

(** * Further properties of the key manager *)

Lemma toy_codec_public_faithful : @pem_public_faithful toy_codec (public_key_of toy_key).
Proof. reflexivity. Qed.

Section MoreAboutKeys.
Import RsaKeyManager.
Context `{PemCodec} `{Rsa}.


(** X10. A public key saved with [save_public_key_to_file] is the key
    that [load_public_key_from_file] returns from the same path, when the
    library decodes the container it writes; saving replaces what the path
    held and changes no other file. *)
Theorem save_public_then_load
    (public_key : RSAPublicKey) (pem_file_path : string) (fs fs' : gmap string bytes) :
  pem_public_faithful public_key ->
  save_public_key_to_file public_key pem_file_path fs = inr fs' ->
  load_public_key_from_file pem_file_path fs' = inr public_key
  /\ fs' !! pem_file_path = Some (public_bytes public_key)
  /\ forall path, path <> pem_file_path -> fs' !! path = fs !! path.
Proof.
  intros Hfaithful Hsave. unfold save_public_key_to_file in Hsave. simplify_eq.
  unfold load_public_key_from_file, load_pem_public_key.
  rewrite !lookup_insert_eq. unfold pem_public_faithful in Hfaithful. rewrite Hfaithful.
  split; [done|]. split; [done|].
  intros path Hne. by rewrite !lookup_insert_ne.
Qed.

(** X12. A key saved without a passphrase, or with the empty one, is
    stored unprotected: loading it without a passphrase returns the key, and
    loading it with any passphrase, the empty one included, fails with the
    [Exception] that carries the advice. *)
Theorem save_unprotected_then_load
    (entropy salt : nat) (path : string) (password : option string)
    (key : RSAPrivateKey) (fs fs' : gmap string bytes) :
  pem_faithful key ->
  password = None \/ password = Some "" ->
  save_private_key_to_file entropy salt path password (Some key) fs = inr fs' ->
  load_private_key_from_file path None fs' = inr key
  /\ forall given : string,
       exists e, load_private_key_from_file path (Some given) fs' = inl e
                 /\ is_FormatError e.
Proof.
  intros Hfaithful Hpw Hsave.
  assert (encryption_for password = NoEncryption) as Henc by (by destruct Hpw as [-> | ->]).
  unfold save_private_key_to_file in Hsave. rewrite Henc in Hsave. simplify_eq.
  unfold load_private_key_from_file. rewrite !lookup_insert_eq.
  unfold load_pem_private_key. unfold pem_faithful in Hfaithful. rewrite Hfaithful.
  simpl. split; [done|]. intros given.
  eexists. split; [reflexivity|].
  apply (wrapped_is_FormatError "Failed to process private key. Please check file format ").
Qed.

(** X13. [serialize_public_key] returns a key exactly when the text is
    that key in PEM, and whatever it raises is the [Exception] that carries
    the advice: no exception of the library reaches the caller as it is. *)
Theorem serialize_public_key_outcomes (public_key : string) :
  (forall k, serialize_public_key public_key = inr k
             <-> pem_public (encode public_key) = Some k)
  /\ (pem_public (encode public_key) = None ->
      exists e, serialize_public_key public_key = inl e /\ is_FormatError e)
  /\ (forall e, serialize_public_key public_key = inl e ->
                is_FormatError e /\ pem_public (encode public_key) = None).
Proof.
  unfold serialize_public_key, load_pem_public_key.
  destruct (pem_public (encode public_key)) as [k|] eqn:Hpem.
  - split; [|split]; [|done|done].
    intros k'. split; intros; by simplify_eq.
  - split; [|split].
    + intros k. split; intros; simplify_eq.
    + intros _. eexists. split; [reflexivity|].
      apply (wrapped_is_FormatError
               ("Failed to serialize public key, most likely key was corrupted, or you made a mistake, when provided the key."
                ++ newline ++ "Please check your input, ")%string).
    + intros e He. simplify_eq. split; [|done].
      apply (wrapped_is_FormatError
               ("Failed to serialize public key, most likely key was corrupted, or you made a mistake, when provided the key."
                ++ newline ++ "Please check your input, ")%string).
Qed.

(** X14. Loading a private key from a file is parsing the text of the
    file with [serialize_private_key] and wrapping what that raises: the
    two return the same key for the same bytes and passphrase, and where
    the parser raises [e] the loader raises the [Exception] with the advice
    and the message of [e]. *)
Theorem load_private_key_wraps_parser
    (pem_file_path : string) (text : string) (password : option string)
    (fs : gmap string bytes) :
  load_private_key_from_file pem_file_path password (<[pem_file_path := encode text]> fs)
  = match serialize_private_key text password with
    | inr key => inr key
    | inl e =>
        inl (Exception
               ("Failed to process private key. Please check file format and try again."
                ++ newline ++ newline ++ "Additional Info:" ++ newline ++ " " ++ str e))
    end.
Proof.
  unfold load_private_key_from_file, serialize_private_key.
  rewrite lookup_insert_eq.
  destruct (load_pem_private_key (encode text) (encode <$> password)) as [e|k] eqn:Hload;
    [|done].
  by destruct (load_pem_private_key_raises _ _ _ Hload) as (msg & [-> | ->]).
Qed.

(** X15. [load_public_key_from_file] on a file and [serialize_public_key]
    on the text of the file return the same key, and one fails exactly when
    the other does. *)
Theorem load_public_key_agrees_with_parser
    (pem_file_path : string) (text : string) (fs : gmap string bytes) :
  (forall k,
     load_public_key_from_file pem_file_path (<[pem_file_path := encode text]> fs) = inr k
     <-> serialize_public_key text = inr k)
  /\ ((exists e, load_public_key_from_file pem_file_path
                   (<[pem_file_path := encode text]> fs) = inl e /\ is_FormatError e)
      <-> exists e, serialize_public_key text = inl e /\ is_FormatError e).
Proof.
  unfold load_public_key_from_file, serialize_public_key, load_pem_public_key.
  rewrite lookup_insert_eq.
  destruct (pem_public (encode text)) as [k|].
  - split; [done|]. split; by intros (e & ? & _).
  - split; [done|]. split; intros _; eexists; (split; [reflexivity|]).
    + apply (wrapped_is_FormatError
               ("Failed to serialize public key, most likely key was corrupted, or you made a mistake, when provided the key."
                ++ newline ++ "Please check your input, ")%string).
    + apply (wrapped_is_FormatError
               "Failed to process public key. Please check file format ").
Qed.

End MoreAboutKeys.

(** * The further properties at concrete inputs *)

Lemma handler_failure_keeps_partial_output_witness :
  let content := [x01; x02; x03; x04; x05] in
  let s := with_file "in.bin" content empty_state in
  exists (s' : FileManager.State) (done : list (bytes * bytes)),
    FileManager._process_file never "in.bin" "out.bin" (failing_at 1) 2 s = (Normal tt, s')
    /\ done.*1 = take 1 (chunks 2 (visible "in.bin" "out.bin" content))
    /\ (forall k c p, done !! k = Some (c, p) -> failing_at 1 k c = inr p)
    /\ FileManager.emitted s' =
       FileManager.emitted s ++ progress_of done
       ++ [FileManager.critical_error "in.bin" (str (DecryptError "decryption failed"))]
    /\ FileManager.files s' !! "out.bin" = Some (concat done.*2)
    /\ FileManager._stop_flag (FileManager.self s') = false.
Proof.
  intros content s.
  apply (handler_failure_keeps_partial_output never (failing_at 1) 2 "in.bin" "out.bin" s
           content 1 [x03; x04] (DecryptError "decryption failed")).
  - reflexivity.
  - intros k Hk. reflexivity.
  - intros k c Hk Hc. assert (k = 0) as -> by lia. eexists. reflexivity.
  - reflexivity.
  - reflexivity.
Defined.


Lemma run_modifies_only_output_witness :
  let s := with_file "other.bin" [x07] (with_file "in.bin" [x01; x02; x03] empty_state) in
  FileManager.files
    (FileManager._process_file never "in.bin" "out.bin" toy_handler 2 s).2 !! "other.bin"
  = FileManager.files s !! "other.bin".
Proof.
  intros s.
  apply (run_modifies_only_output never toy_handler 2 "in.bin" "out.bin" s "other.bin").
  discriminate.
Defined.

Lemma progress_sums_to_input_length_witness :
  let content := [x01; x02; x03; x04; x05] in
  let s := with_file "in.bin" content empty_state in
  let log := [FileManager.update_processed_bytes 2; FileManager.update_processed_bytes 2;
              FileManager.update_processed_bytes 1; FileManager.operation_completed] in
  sum_list (deltas log) <= length (visible "in.bin" "out.bin" content)
  /\ (0 < 2 -> FileManager.operation_completed ∈ log ->
      sum_list (deltas log) = length (visible "in.bin" "out.bin" content)).
Proof.
  intros content s log.
  apply (progress_sums_to_input_length never toy_handler 2 "in.bin" "out.bin" s content log).
  - reflexivity.
  - reflexivity.
Defined.

Lemma progress_counts_are_chunk_sized_witness :
  let content := [x01; x02; x03; x04; x05] in
  0 < 2 <= 2
  /\ (S 1 < length (chunks 2 (visible "in.bin" "out.bin" content)) -> 2 = 2).
Proof.
  intros content.
  apply (progress_counts_are_chunk_sized never toy_handler 2 "in.bin" "out.bin"
           (with_file "in.bin" content empty_state) content
           [FileManager.update_processed_bytes 2; FileManager.update_processed_bytes 2;
            FileManager.update_processed_bytes 1; FileManager.operation_completed] 1 2).
  - reflexivity.
  - reflexivity.
  - reflexivity.
Defined.

Lemma toy_encrypt_chunk_length (i : nat) (c p : bytes) :
  @ChunkEncrypter.encrypt_chunk toy_oaep
    (ChunkEncrypter.mk (Some (public_key_of toy_key)) None) i c = inr p ->
  length p = 512.
Proof.
  unfold ChunkEncrypter.encrypt_chunk. simpl ChunkEncrypter.public_key. cbv beta iota.
  destruct (decide _) as [Hc|]; [|done]. intros Hp. simplify_eq.
  change (length (toy_pad (modulus_byte_len 4096) c) = 512).
  assert (modulus_byte_len 4096 = 512) as -> by (by vm_compute).
  apply toy_pad_length.
  assert (max_plaintext_len 4096 = 446) as Hmax by (by vm_compute).
  simpl pub_key_size in Hc. lia.
Qed.

Lemma completed_output_length_witness :
  let content := [x01; x02; x03] in
  let s := with_file "in.bin" content empty_state in
  let handler := @ChunkEncrypter.encrypt_chunk toy_oaep
                   (ChunkEncrypter.mk (Some (public_key_of toy_key)) None) in
  exists out : bytes,
    FileManager.files (FileManager._process_file never "in.bin" "out.bin" handler 446 s).2
      !! "out.bin" = Some out
    /\ length out = 512 * ((length (visible "in.bin" "out.bin" content) + 446 - 1) / 446).
Proof.
  intros content s handler.
  apply (completed_output_length never handler 446 "in.bin" "out.bin" s content
           [FileManager.update_processed_bytes 3; FileManager.operation_completed] 512).
  - lia.
  - reflexivity.
  - vm_compute. reflexivity.
  - repeat constructor.
  - apply toy_encrypt_chunk_length.
Defined.

Lemma empty_first_read_completes_witness :
  let s := with_file "in.bin" [] empty_state in
  exists s' : FileManager.State,
    FileManager._process_file never "in.bin" "out.bin" toy_handler 2 s = (Normal tt, s')
    /\ FileManager.emitted s' = FileManager.emitted s ++ [FileManager.operation_completed]
    /\ FileManager.files s' !! "out.bin" = Some []
    /\ FileManager.io_log s' =
       FileManager.io_log s ++ [FileManager.Opened "in.bin" "rb";
                                FileManager.Opened "out.bin" "wb";
                                FileManager.Read "in.bin" []].
Proof.
  intros s.
  apply (empty_first_read_completes never toy_handler 2 "in.bin" "out.bin" s []).
  - reflexivity.
  - right. reflexivity.
  - reflexivity.
Defined.

Lemma process_file_aliased_witness :
  let s := with_file "data.bin" [x01; x02; x03] empty_state in
  exists s' : FileManager.State,
    FileManager._process_file never "data.bin" "data.bin" toy_handler 2 s = (Normal tt, s')
    /\ FileManager.files s' !! "data.bin" = Some []
    /\ FileManager.emitted s' = FileManager.emitted s ++ [FileManager.operation_completed].
Proof.
  intros s.
  apply (process_file_aliased never toy_handler 2 "data.bin" s [x01; x02; x03]).
  - reflexivity.
  - reflexivity.
Defined.

Lemma writes_bounded_by_stop_request_witness :
  let s := with_file "in.bin" [x01; x02; x03; x04; x05] empty_state in
  exists (s' : FileManager.State) (io : list FileManager.IOEvent),
    FileManager._process_file (stop_at 1) "in.bin" "out.bin" toy_handler 2 s = (Normal tt, s')
    /\ FileManager.io_log s' = FileManager.io_log s ++ io
    /\ length (writes_of io) <= 1.
Proof.
  intros s.
  apply (writes_bounded_by_stop_request (stop_at 1) toy_handler 2 "in.bin" "out.bin" s 1).
  reflexivity.
Defined.

Lemma save_public_then_load_witness :
  let fs' := <["pub.pem" := [x03]]> (<["pub.pem" := []]> (∅ : gmap string bytes)) in
  @RsaKeyManager.load_public_key_from_file toy_codec "pub.pem" fs'
  = inr (public_key_of toy_key)
  /\ fs' !! "pub.pem" = Some (@public_bytes toy_codec (public_key_of toy_key))
  /\ forall path, path <> "pub.pem" -> fs' !! path = (∅ : gmap string bytes) !! path.
Proof.
  intros fs'.
  apply (save_public_then_load (H := toy_codec) (public_key_of toy_key) "pub.pem" ∅ fs').
  - exact toy_codec_public_faithful.
  - reflexivity.
Defined.

Lemma save_then_load_witness :
  let fs' := <["key.pem" := x02 :: RsaKeyManager.encode "secret"]>
               (<["key.pem" := []]> (∅ : gmap string bytes)) in
  @RsaKeyManager.load_private_key_from_file toy_codec "key.pem" (Some "secret") fs'
  = inr toy_key
  /\ exists e,
       @RsaKeyManager.load_private_key_from_file toy_codec "key.pem" (Some "wrong") fs'
       = inl e
       /\ RsaKeyManager.is_FormatError e.
Proof.
  intros fs'.
  apply (save_then_load (H := toy_codec) (H0 := rsa_4096) 0 0 "key.pem" "secret" "wrong"
           toy_key ∅ fs').
  - exact toy_codec_faithful.
  - discriminate.
  - vm_compute. discriminate.
  - reflexivity.
Defined.

Lemma save_unprotected_then_load_witness :
  let fs' := <["key.pem" := [x01]]> (<["key.pem" := []]> (∅ : gmap string bytes)) in
  @RsaKeyManager.load_private_key_from_file toy_codec "key.pem" None fs' = inr toy_key
  /\ forall given : string,
       exists e,
         @RsaKeyManager.load_private_key_from_file toy_codec "key.pem" (Some given) fs'
         = inl e
         /\ RsaKeyManager.is_FormatError e.
Proof.
  intros fs'.
  apply (save_unprotected_then_load (H := toy_codec) (H0 := rsa_4096) 0 0 "key.pem"
           (Some "") toy_key ∅ fs').
  - exact toy_codec_faithful.
  - right. reflexivity.
  - reflexivity.
Defined.

(** * Processing a file and processing the result back *)

Lemma concat_take_chunks (n : nat) :
  0 < n -> forall (j : nat) (data : bytes),
    concat (take j (chunks n data)) = take (j * n) data.
Proof.
  intros Hn. induction j as [|j IH]; intros data; [done|].
  destruct data as [|b data]; [by rewrite chunks_nil, !take_nil|].
  rewrite chunks_step by (destruct n; [lia|done]).
  rewrite firstn_cons. simpl concat. rewrite IH.
  rewrite take_take_drop. f_equal.
Qed.

Section BackAndForth.
Import FileManager.

Variables encode_chunk decode_chunk : nat -> bytes -> PyExn + bytes.
Variables encode_size decode_size : nat.
Hypothesis Hencode_size : 0 < encode_size.
Hypothesis Hdecode_size : 0 < decode_size.
(** The second handler undoes the first, whose results all have the size
    of the chunks of the second run. *)
Hypothesis Hinverse :
  forall (k : nat) (c : bytes),
    0 < length c <= encode_size ->
    exists p, encode_chunk k c = inr p /\ length p = decode_size
              /\ decode_chunk k p = inr c.

(** Processing blocks back into the chunks they came from. *)
Lemma decode_blocks (stop_request : nat -> bool) (cipher restored : string) (s : State)
    (done : list (bytes * bytes)) :
  (forall i, stop_request i = false) ->
  _stop_flag (self s) = false ->
  cipher <> restored ->
  files s !! cipher = Some (concat done.*2) ->
  Forall (fun c => 0 < length c <= encode_size) done.*1 ->
  (forall k c p, done !! k = Some (c, p) -> encode_chunk k c = inr p) ->
  exists s' : State,
    _process_file stop_request cipher restored decode_chunk decode_size s = (Normal tt, s')
    /\ files s' !! restored = Some (concat done.*1).
Proof using Hdecode_size Hinverse.
  intros Hnever Hflag Hne Hcipher Hsizes Hdone.
  assert (forall k c p, done !! k = Some (c, p) ->
                        length p = decode_size /\ decode_chunk k p = inr c) as Hback.
  { intros k c p Hk.
    assert (0 < length c <= encode_size) as Hc.
    { eapply Forall_lookup_1 in Hsizes; [exact Hsizes|].
      rewrite list_lookup_fmap, Hk. done. }
    destruct (Hinverse k c Hc) as (p' & Hp' & Hlen & Hdec).
    rewrite (Hdone k c p Hk) in Hp'. by simplify_eq. }
  rewrite (process_file_session _ _ _ _ _ _ _ Hcipher). cbn zeta.
  unfold visible. rewrite decide_False by done.
  assert (chunks decode_size (concat done.*2) = done.*2) as ->.
  { apply chunks_concat; [done|]. apply Forall_forall. intros p Hp.
    apply list_elem_of_lookup in Hp as [k Hk].
    apply list_lookup_fmap_Some in Hk as ([c p'] & -> & Hk).
    by apply (Hback k c p'). }
  rewrite Hflag.
  rewrite (session_all stop_request _ Hnever done.*2 done.*1 0); cycle 1.
  { by rewrite !length_fmap. }
  { intros k p c Hp Hc.
    apply list_lookup_fmap_Some in Hp as ([c1 p1] & -> & Hk1).
    rewrite list_lookup_fmap, Hk1 in Hc. simpl in Hc.
    destruct (Hback _ _ _ Hk1) as [_ Hdec]. by simplify_eq. }
  eexists. split; [reflexivity|]. simpl.
  rewrite (foldl_append_file_lookup restored _ _ []); [|apply lookup_insert_eq].
  rewrite snd_zip by (by rewrite !length_fmap). done.
Qed.

(** X16. Two runs of [_process_file] undo each other when the second
    chunk handler undoes the first and the chunk size of the second run is
    the size of every result of the first: with no stop request and the
    intermediate file distinct from the other two, the second run writes
    the input of the first, byte for byte. *)
Theorem process_file_round_trip
    (stop_request1 stop_request2 : nat -> bool) (plain cipher restored : string)
    (s : State) (plaintext : bytes) :
  (forall i, stop_request1 i = false) ->
  (forall i, stop_request2 i = false) ->
  _stop_flag (self s) = false ->
  files s !! plain = Some plaintext ->
  plain <> cipher ->
  cipher <> restored ->
  exists s1 s2 : State,
    _process_file stop_request1 plain cipher encode_chunk encode_size s = (Normal tt, s1)
    /\ _process_file stop_request2 cipher restored decode_chunk decode_size s1
       = (Normal tt, s2)
    /\ files s2 !! restored = Some plaintext.
Proof using Hencode_size Hdecode_size Hinverse.
  intros Hnever1 Hnever2 Hflag Hin Hpc Hcr.
  set (todo := chunks encode_size plaintext).
  set (blocks := imap (fun k c => result_or_empty (encode_chunk k c)) todo).
  assert (Forall (fun c => 0 < length c <= encode_size) todo) as Hsizes.
  { apply Forall_and. split; [apply chunks_nonempty|apply chunks_bounded]. }
  assert (length todo = length blocks) as Hlen by (unfold blocks; by rewrite length_imap).
  assert (forall k c p, todo !! k = Some c -> blocks !! k = Some p ->
                        encode_chunk k c = inr p) as Hblocks.
  { intros k c p Hc Hp. unfold blocks in Hp. rewrite list_lookup_imap, Hc in Hp.
    simpl in Hp. simplify_eq.
    eapply Forall_lookup_1 in Hsizes; [|exact Hc].
    destruct (Hinverse k c Hsizes) as (p' & -> & _). done. }
  rewrite (process_file_session _ _ _ _ _ _ plaintext Hin). cbn zeta.
  unfold visible. rewrite decide_False by done. fold todo. rewrite Hflag.
  rewrite (session_all stop_request1 _ Hnever1 todo blocks 0 Hlen Hblocks).
  set (s1 := finish _ _ _). exists s1.
  destruct (decode_blocks stop_request2 cipher restored s1 (zip todo blocks))
    as (s2 & Hrun & Hout); try done.
  - unfold s1. simpl.
    rewrite (foldl_append_file_lookup cipher _ _ []); [done|]. apply lookup_insert_eq.
  - by rewrite fst_zip by lia.
  - intros k c p Hk. apply lookup_zip_with_Some in Hk as (c' & p' & ? & Hc & Hp).
    simplify_eq. by apply Hblocks.
  - exists s2. split; [done|]. split; [done|].
    rewrite Hout, fst_zip by lia. f_equal. by apply concat_chunks.
Qed.

(** X17. A run cancelled when iteration [j] looks at the flag leaves whole
    results only: processing its output back, with a manager whose flag is
    not set, writes the first [j] chunks of the input, that is its first
    [j * encode_size] bytes. *)
Theorem cancelled_output_restores_prefix
    (stop_request1 stop_request2 : nat -> bool) (plain cipher restored : string)
    (s : State) (plaintext : bytes) (j : nat) :
  (forall k, k < j -> _stop_flag (self s) || stop_request1 k = false) ->
  _stop_flag (self s) || stop_request1 j = true ->
  j <= length (chunks encode_size plaintext) ->
  (forall i, stop_request2 i = false) ->
  files s !! plain = Some plaintext ->
  plain <> cipher ->
  cipher <> restored ->
  exists s1 s2 : State,
    _process_file stop_request1 plain cipher encode_chunk encode_size s = (Normal tt, s1)
    /\ _stop_flag (self s1) = true
    /\ _process_file stop_request2 cipher restored decode_chunk decode_size
         (fresh_manager s1) = (Normal tt, s2)
    /\ files s2 !! restored = Some (take (j * encode_size) plaintext).
Proof using Hencode_size Hdecode_size Hinverse.
  intros Hbefore Hat Hj Hnever2 Hin Hpc Hcr.
  set (todo := chunks encode_size plaintext) in *.
  assert (Forall (fun c => 0 < length c <= encode_size) todo) as Hsizes.
  { apply Forall_and. split; [apply chunks_nonempty|apply chunks_bounded]. }
  destruct (session_cancelled_at stop_request1 encode_chunk j todo (_stop_flag (self s)) 0)
    as (done & Hs & Hd); [exact Hbefore|exact Hat|exact Hj| |].
  { intros k c _ Hc. eapply Forall_lookup_1 in Hsizes; [|exact Hc].
    destruct (Hinverse k c Hsizes) as (p & Hp & _). eauto. }
  destruct (session_done _ _ _ _ _ _ _ Hs) as (_ & Hh & _).
  rewrite (process_file_session _ _ _ _ _ _ plaintext Hin). cbn zeta.
  unfold visible. rewrite decide_False by done. fold todo. rewrite Hs.
  set (s1 := finish _ _ _). exists s1.
  destruct (decode_blocks stop_request2 cipher restored (fresh_manager s1) done)
    as (s2 & Hrun & Hout); try done.
  - unfold s1. simpl.
    rewrite (foldl_append_file_lookup cipher _ _ []); [done|]. apply lookup_insert_eq.
  - rewrite Hd. by apply Forall_take.
  - exists s2. split; [done|]. split; [done|]. split; [done|].
    rewrite Hout, Hd. f_equal. by apply concat_take_chunks.
Qed.

End BackAndForth.

Lemma frame_inverse (k : nat) (c : bytes) :
  0 < length c <= 2 ->
  exists p, frame_handler k c = inr p /\ length p = 3 /\ unframe_handler k p = inr c.
Proof.
  intros Hc. destruct c as [|b1 [|b2 [|b3 c]]]; simpl in Hc; try lia.
  - exists [x01; b1; x00]. repeat split.
  - exists [x02; b1; b2]. repeat split.
Qed.

Lemma process_file_round_trip_witness :
  let plaintext := [x0a; x0b; x0c] in
  let s := with_file "plain.bin" plaintext empty_state in
  exists s1 s2 : FileManager.State,
    FileManager._process_file never "plain.bin" "cipher.bin" frame_handler 2 s
    = (Normal tt, s1)
    /\ FileManager._process_file never "cipher.bin" "restored.bin" unframe_handler 3 s1
       = (Normal tt, s2)
    /\ FileManager.files s2 !! "restored.bin" = Some plaintext.
Proof.
  intros plaintext s.
  apply (process_file_round_trip frame_handler unframe_handler 2 3
           ltac:(lia) ltac:(lia) frame_inverse never never
           "plain.bin" "cipher.bin" "restored.bin" s plaintext).
  - reflexivity.
  - reflexivity.
  - reflexivity.
  - reflexivity.
  - discriminate.
  - discriminate.
Defined.

Lemma cancelled_output_restores_prefix_witness :
  let plaintext := [x0a; x0b; x0c; x0d; x0e] in
  let s := with_file "plain.bin" plaintext empty_state in
  exists s1 s2 : FileManager.State,
    FileManager._process_file (stop_at 1) "plain.bin" "cipher.bin" frame_handler 2 s
    = (Normal tt, s1)
    /\ FileManager._stop_flag (FileManager.self s1) = true
    /\ FileManager._process_file never "cipher.bin" "restored.bin" unframe_handler 3
         (fresh_manager s1) = (Normal tt, s2)
    /\ FileManager.files s2 !! "restored.bin" = Some (take (1 * 2) plaintext).
Proof.
  intros plaintext s.
  apply (cancelled_output_restores_prefix frame_handler unframe_handler 2 3
           ltac:(lia) ltac:(lia) frame_inverse (stop_at 1) never
           "plain.bin" "cipher.bin" "restored.bin" s plaintext 1).
  - intros k Hk. assert (k = 0) as -> by lia. reflexivity.
  - reflexivity.
  - vm_compute. lia.
  - reflexivity.
  - reflexivity.
  - discriminate.
  - discriminate.
Defined.
